(** * ENAS recipes: controller sampling and policy-gradient updates

    A shallow embedding of the three notebooks of the repository:
    - Recipe 1 (basic ENAS, [Controller], [train_enas], [evaluate]),
    - Recipe 3 (PPO, [PPOController], [ppo_update], [train_enas_ppo]),
    - Recipe 8 (uncertainty-aware ENAS, [UncertaintyAwareController],
      [train_uncertainty_aware_enas]).

    Tensor entries are real numbers ([R]); rounding, overflow and underflow
    of float32 are not part of the model.  Python exceptions are values of
    [exn], carried by the [result] monad.  The global random generator of
    torch is an explicit stream of uniform draws that the samplers thread. *)

From Stdlib Require Import Reals Lra Lia List Arith Bool Permutation.
Import ListNotations.

Open Scope R_scope.

(** ** Exceptions and the error monad *)

Inductive exn : Type :=
| UnboundLocalError   (* a local name read before it is bound *)
| RuntimeError        (* torch: shapes that do not broadcast, empty stack/cat *)
| ZeroDivisionError   (* Python: int / int with a zero divisor *)
| ValueError          (* torch.distributions: argument outside its constraint *)
| AttributeError      (* Python: method looked up on an int *)
| IndexError.         (* Python: list index out of range *)

Inductive result (A : Type) : Type :=
| Ok (a : A)
| Raise (e : exn).

Arguments Ok {A} a.
Arguments Raise {A} e.

Definition bind {A B : Type} (m : result A) (k : A -> result B) : result B :=
  match m with
  | Ok a => k a
  | Raise e => Raise e
  end.

Notation "x <- m ;; k" := (bind m (fun x => k))
  (at level 61, m at next level, right associativity).
Notation "' pat <- m ;; k" := (bind m (fun x => match x with pat => k end))
  (at level 61, pat pattern, m at next level, right associativity).

(** ** Tensors of rank at most two

    A tensor of shape [()] or [(n,)] is stored as a single row, so that
    torch's broadcasting (shapes are aligned at their last dimension and
    padded with ones on the left) is the same computation at every rank. *)

Record tensor : Type := mkT {
  rank : nat;
  nrows : nat;
  ncols : nat;
  rows : list (list R)
}.

Definition scalar (r : R) : tensor := mkT 0 1 1 [[r]].
Definition vec (l : list R) : tensor := mkT 1 1 (length l) [l].
Definition col (l : list R) : tensor :=
  mkT 2 (length l) 1 (map (fun x => [x]) l).

Definition shape (t : tensor) : list nat :=
  match rank t with
  | O => []
  | S O => [ncols t]
  | _ => [nrows t; ncols t]
  end.

Definition numel (t : tensor) : nat := (nrows t * ncols t)%nat.
Definition flat (t : tensor) : list R := concat (rows t).

Definition Rsum (l : list R) : R := fold_right Rplus 0 l.

(** [t.sum()] and [t.mean()], as the value of the 0-d result.  The mean
    of an empty tensor (nan in torch) is outside the model. *)
Definition tsum (t : tensor) : R := Rsum (flat t).
Definition tmean (t : tensor) : R := tsum t / INR (numel t).

Definition tmap (f : R -> R) (t : tensor) : tensor :=
  mkT (rank t) (nrows t) (ncols t) (map (map f) (rows t)).

(** Broadcasting of one dimension. *)
Definition bdim (a b : nat) : option nat :=
  if Nat.eqb a b then Some a
  else if Nat.eqb a 1 then Some b
  else if Nat.eqb b 1 then Some a
  else None.

Definition expand_row (c : nat) (n : nat) (row : list R) : list R :=
  if Nat.eqb c n then row else repeat (hd 0 row) n.

Definition expand (t : tensor) (r c : nat) : list (list R) :=
  let rs := map (expand_row (ncols t) c) (rows t) in
  if Nat.eqb (nrows t) r then rs else repeat (hd [] rs) r.

Fixpoint zip_with {A B C : Type} (f : A -> B -> C) (l : list A) (m : list B)
  : list C :=
  match l, m with
  | a :: l', b :: m' => f a b :: zip_with f l' m'
  | _, _ => []
  end.

(** An elementwise binary operation; shapes that do not broadcast raise. *)
Definition tbinop (f : R -> R -> R) (a b : tensor) : result tensor :=
  match bdim (nrows a) (nrows b), bdim (ncols a) (ncols b) with
  | Some r, Some c =>
      Ok (mkT (Nat.max (rank a) (rank b)) r c
              (zip_with (zip_with f) (expand a r c) (expand b r c)))
  | _, _ => Raise RuntimeError
  end.

Definition tsub : tensor -> tensor -> result tensor := tbinop Rminus.
Definition tmul : tensor -> tensor -> result tensor := tbinop Rmult.
Definition tmin : tensor -> tensor -> result tensor := tbinop Rmin.
Definition tdiv : tensor -> tensor -> result tensor := tbinop Rdiv.

(** [torch.stack] of 0-d tensors: a 1-d tensor; the empty list raises. *)
Definition stack (l : list R) : result tensor :=
  match l with
  | [] => Raise RuntimeError
  | _ => Ok (vec l)
  end.

(** [torch.cat] along dimension 0: ranks must agree, and so must the
    number of columns of rank-2 tensors; the empty list raises. *)
Fixpoint cat_rest (acc : tensor) (l : list tensor) : result tensor :=
  match l with
  | [] => Ok acc
  | t :: l' =>
      if negb (Nat.eqb (rank t) (rank acc)) then Raise RuntimeError
      else match rank acc with
           | O => Raise RuntimeError
           | S O =>
               cat_rest (vec (flat acc ++ flat t)) l'
           | _ =>
               if Nat.eqb (ncols t) (ncols acc)
               then cat_rest (mkT (rank acc) (nrows acc + nrows t) (ncols acc)
                                  (rows acc ++ rows t)) l'
               else Raise RuntimeError
           end
  end.

Definition cat (l : list tensor) : result tensor :=
  match l with
  | [] => Raise RuntimeError
  | t :: l' =>
      match rank t with
      | O => Raise RuntimeError
      | _ => cat_rest t l'
      end
  end.

(** ** Categorical sampling *)

(** [torch.softmax(logits, dim=-1)] on one row. *)
Definition softmax (logits : list R) : list R :=
  let z := Rsum (map exp logits) in
  map (fun x => exp x / z) logits.

(** The global generator: a seeded sequence of uniform draws and the
    number of draws consumed so far. *)
Record rng : Type := { stream : nat -> R; pos : nat }.

Definition draw (g : rng) : R * rng :=
  (stream g (pos g), {| stream := stream g; pos := S (pos g) |}).

(** The generator after [k] more draws, and the draw number [j] from now. *)
Definition advance (k : nat) (g : rng) : rng :=
  {| stream := stream g; pos := pos g + k |}.
Definition draw_at (g : rng) (j : nat) : R := stream g (pos g + j).

(** [torch.multinomial(probs, 1).item()]: the index selected by one
    uniform draw through the cumulative distribution. *)
Fixpoint multinomial_from (i : nat) (probs : list R) (u : R) : nat :=
  match probs with
  | [] => i
  | [_] => i
  | p :: rest =>
      if Rlt_dec u p then i else multinomial_from (S i) rest (u - p)
  end.

Definition multinomial (probs : list R) (u : R) : nat :=
  multinomial_from 0 probs u.

Definition zeros (n : nat) : list R := repeat 0 n.

(** The outputs of a head [nn.Linear(hidden_size, n)] applied to [h]:
    [head h i] is output number [i], and the layer has [n] of them. *)
Definition head_out (n : nat) (head : list R -> nat -> R) (h : list R)
  : list R :=
  map (head h) (seq 0 n).

(** ** [evaluate], the same function in the three notebooks *)

Section Evaluate.
Variables Net X A : Type.

(** [predict net x actions] stands for [model(x, actions).max(1)[1]], the
    class index the weight-sharing network selects for each example. *)
Variable predict : Net -> X -> A -> list nat.

Definition expand_labels (n : nat) (l : list nat) : list nat :=
  if Nat.eqb (length l) n then l else repeat (hd O l) n.

(** [(predicted == y).sum().item()] *)
Definition count_eq (predicted y : list nat) : result nat :=
  match bdim (length predicted) (length y) with
  | Some n =>
      Ok (length (filter (fun b : bool => b)
                    (zip_with Nat.eqb (expand_labels n predicted)
                                      (expand_labels n y))))
  | None => Raise RuntimeError
  end.

Fixpoint evaluate_loop (model : Net) (actions : A) (data : list (X * list nat))
         (correct total : nat) : result (nat * nat) :=
  match data with
  | [] => Ok (correct, total)
  | (x, y) :: data' =>
      k <- count_eq (predict model x actions) y ;;
      evaluate_loop model actions data' (correct + k) (total + length y)
  end.

Definition evaluate (model : Net) (actions : A) (data : list (X * list nat))
  : result R :=
  '(correct, total) <- evaluate_loop model actions data 0 0 ;;
  match total with
  | O => Raise ZeroDivisionError
  | _ => Ok (INR correct / INR total)
  end.
End Evaluate.

Arguments evaluate {Net X A} predict model actions data.
Arguments evaluate_loop {Net X A} predict model actions data correct total.

(** ** Recipe 1: basic ENAS *)

Module Basic.

Definition NUM_LAYERS : nat := 4.
Definition NUM_OPS : nat := 3.

(** The controller's parameters, as the functions its modules compute:
    [lstm x (h, c)] is [self.lstm(x, (h, c))] and [linear h i] is logit
    [i] of [self.linear(h)]. *)
Record Controller : Type := {
  hidden_size : nat;
  lstm : list R -> list R * list R -> list R * list R;
  linear : list R -> nat -> R
}.

Fixpoint forward_loop (ctrl : Controller) (n : nat) (hc : list R * list R)
         (g : rng) (actions : list nat) (log_probs : list R)
  : list nat * list R * rng :=
  match n with
  | O => (actions, log_probs, g)
  | S n' =>
      let x := zeros NUM_OPS in
      let hc' := lstm ctrl x hc in
      let logits := head_out NUM_OPS (linear ctrl) (fst hc') in
      let probs := softmax logits in
      let (u, g') := draw g in
      let action := multinomial probs u in
      forward_loop ctrl n' hc' g' (actions ++ [action])
                   (log_probs ++ [ln (nth action probs 0)])
  end.

Definition forward (ctrl : Controller) (num_cells : nat) (g : rng)
  : result (list nat * tensor * rng) :=
  let hc := (zeros (hidden_size ctrl), zeros (hidden_size ctrl)) in
  let '(actions, log_probs, g') := forward_loop ctrl num_cells hc g [] [] in
  lp <- stack log_probs ;;
  Ok (actions, lp, g').

(** The decision steps of one call of [forward], by position: the
    recurrent state after [j] steps, and the logits, the action drawn and
    its log-probability at step [j]. *)
Definition state_at (ctrl : Controller) (j : nat) : list R * list R :=
  Nat.iter j (lstm ctrl (zeros NUM_OPS))
           (zeros (hidden_size ctrl), zeros (hidden_size ctrl)).
Definition logits_at (ctrl : Controller) (j : nat) : list R :=
  head_out NUM_OPS (linear ctrl) (fst (state_at ctrl (S j))).
Definition action_at (ctrl : Controller) (g : rng) (j : nat) : nat :=
  multinomial (softmax (logits_at ctrl j)) (draw_at g j).
Definition log_prob_at (ctrl : Controller) (g : rng) (j : nat) : R :=
  ln (nth (action_at ctrl g j) (softmax (logits_at ctrl j)) 0).

Section Train.
Variables Net X : Type.
Variable predict : Net -> X -> list nat -> list nat.

(** One supervised step on the shared weights (lines 124-127). *)
Variable shared_step : Net -> X -> list nat -> list nat -> Net.

(** [backward] and [controller_optim.step()] for the loss built from
    [log_probs] and [reward] (lines 140-143). *)
Variable controller_step : Controller -> tensor -> tensor -> Controller.

Fixpoint train_shared (ctrl : Controller) (shared_cnn : Net)
         (train_data : list (X * list nat)) (g : rng)
  : result (Net * rng) :=
  match train_data with
  | [] => Ok (shared_cnn, g)
  | (x, y) :: rest =>
      '(actions, _, g') <- forward ctrl NUM_LAYERS g ;;
      train_shared ctrl (shared_step shared_cnn x y actions) rest g'
  end.

(** The loop of lines 132-136.  [cur] is the binding of the loop's
    names [actions, log_probs], which outlives the loop. *)
Fixpoint sample_loop (k : nat) (ctrl : Controller) (shared_cnn : Net)
         (val_data : list (X * list nat)) (g : rng) (rewards : list R)
         (cur : option (list nat * tensor))
  : result (list R * option (list nat * tensor) * rng) :=
  match k with
  | O => Ok (rewards, cur, g)
  | S k' =>
      '(actions, log_probs, g') <- forward ctrl NUM_LAYERS g ;;
      acc <- evaluate predict shared_cnn actions val_data ;;
      sample_loop k' ctrl shared_cnn val_data g' (rewards ++ [acc])
                  (Some (actions, log_probs))
  end.

(** Line 141: [-(log_probs * reward).sum()]. *)
Definition controller_loss (log_probs reward : tensor) : result R :=
  p <- tmul log_probs reward ;;
  Ok (- tsum p).

(** Lines 139-143.  [reward] is the binding of the local name
    [reward] when line 139 is reached: it is read on the right of its
    own assignment. *)
Definition update_controller (ctrl : Controller) (reward : option tensor)
           (rewards : list R) (cur : option (list nat * tensor))
  : result (Controller * tensor * R) :=
  match reward with
  | None => Raise UnboundLocalError
  | Some prev =>
      reward' <- tsub (vec rewards) (scalar (tmean prev)) ;;
      match cur with
      | None => Raise UnboundLocalError
      | Some (_, log_probs) =>
          loss <- controller_loss log_probs reward' ;;
          Ok (controller_step ctrl log_probs reward', reward', loss)
      end
  end.

(** One iteration of the epoch loop; [reward] and [cur] are the
    function's locals carried from one epoch to the next. *)
Definition epoch (shared_cnn : Net) (ctrl : Controller)
           (train_data val_data : list (X * list nat)) (g : rng)
           (reward : option tensor) (cur : option (list nat * tensor))
  : result (Net * Controller * rng * tensor * option (list nat * tensor) * R) :=
  '(shared_cnn', g1) <- train_shared ctrl shared_cnn train_data g ;;
  '(rewards, cur', g2) <- sample_loop 10 ctrl shared_cnn' val_data g1 [] cur ;;
  '(ctrl', reward', loss) <- update_controller ctrl reward rewards cur' ;;
  Ok (shared_cnn', ctrl', g2, reward', cur', loss).

Fixpoint train_enas_loop (num_epochs : nat) (shared_cnn : Net)
         (ctrl : Controller) (train_data val_data : list (X * list nat))
         (g : rng) (reward : option tensor)
         (cur : option (list nat * tensor))
  : result (Net * Controller * rng) :=
  match num_epochs with
  | O => Ok (shared_cnn, ctrl, g)
  | S e =>
      '(shared_cnn', ctrl', g', reward', cur', _) <-
        epoch shared_cnn ctrl train_data val_data g reward cur ;;
      train_enas_loop e shared_cnn' ctrl' train_data val_data g'
                      (Some reward') cur'
  end.

Definition train_enas (shared_cnn : Net) (ctrl : Controller)
           (train_data val_data : list (X * list nat)) (num_epochs : nat)
           (g : rng) : result (Net * Controller * rng) :=
  train_enas_loop num_epochs shared_cnn ctrl train_data val_data g None None.
End Train.

End Basic.


(** The output of a head [nn.Linear(hidden_size, 1)] on the [(1, hidden)]
    state: a tensor of shape [(1, 1)]. *)
Definition t11 (v : R) : tensor := mkT 2 1 1 [[v]].

(** ** Recipe 3: ENAS with a PPO controller update *)

Module PPO.

Definition NUM_OPS : nat := 5.
Definition NUM_NODES : nat := 4.

Record PPOController : Type := {
  hidden_size : nat;
  lstm : list R -> list R * list R -> list R * list R;
  actor : list R -> nat -> R;
  critic : list R -> R
}.

(** The loop state of [forward]: recurrent state, generator, and the two
    lists that every decision step appends to. *)
Record fstate : Type := {
  st_hc : list R * list R;
  st_g : rng;
  st_log_probs : list R;
  st_values : list tensor
}.

(** The inner loop (lines 62-71), [k] decision steps of one cell. *)
Fixpoint node_loop (ctrl : PPOController) (k : nat) (s : fstate)
         (cell_actions : list nat) : list nat * fstate :=
  match k with
  | O => (cell_actions, s)
  | S k' =>
      let x := zeros NUM_OPS in
      let hc' := lstm ctrl x (st_hc s) in
      let logits := head_out NUM_OPS (actor ctrl) (fst hc') in
      let value := t11 (critic ctrl (fst hc')) in
      let probs := softmax logits in
      let (u, g') := draw (st_g s) in
      let action := multinomial probs u in
      node_loop ctrl k'
        {| st_hc := hc'; st_g := g';
           st_log_probs := st_log_probs s ++ [ln (nth action probs 0)];
           st_values := st_values s ++ [value] |}
        (cell_actions ++ [action])
  end.

(** The outer loop (lines 60-72). *)
Fixpoint cell_loop (ctrl : PPOController) (n : nat) (s : fstate)
         (actions : list (list nat)) : list (list nat) * fstate :=
  match n with
  | O => (actions, s)
  | S n' =>
      let (cell_actions, s') := node_loop ctrl (NUM_NODES * 3) s [] in
      cell_loop ctrl n' s' (actions ++ [cell_actions])
  end.

Definition forward (ctrl : PPOController) (num_cells : nat) (g : rng)
  : result (list (list nat) * tensor * tensor * rng) :=
  let s0 := {| st_hc := (zeros (hidden_size ctrl), zeros (hidden_size ctrl));
               st_g := g; st_log_probs := []; st_values := [] |} in
  let (actions, s) := cell_loop ctrl num_cells s0 [] in
  lp <- stack (st_log_probs s) ;;
  vs <- cat (st_values s) ;;
  Ok (actions, lp, vs, st_g s).

(** The decision steps of one call of [forward], by position in the
    flattened sequence of decisions. *)
Definition state_at (ctrl : PPOController) (j : nat) : list R * list R :=
  Nat.iter j (lstm ctrl (zeros NUM_OPS))
           (zeros (hidden_size ctrl), zeros (hidden_size ctrl)).
Definition logits_at (ctrl : PPOController) (j : nat) : list R :=
  head_out NUM_OPS (actor ctrl) (fst (state_at ctrl (S j))).
Definition action_at (ctrl : PPOController) (g : rng) (j : nat) : nat :=
  multinomial (softmax (logits_at ctrl j)) (draw_at g j).
Definition log_prob_at (ctrl : PPOController) (g : rng) (j : nat) : R :=
  ln (nth (action_at ctrl g j) (softmax (logits_at ctrl j)) 0).
Definition value_at (ctrl : PPOController) (j : nat) : R :=
  critic ctrl (fst (state_at ctrl (S j))).

(** The actions of [n] consecutive cells, the first one starting at
    decision [j]. *)
Fixpoint cell_actions_from (ctrl : PPOController) (g : rng) (j n : nat)
  : list (list nat) :=
  match n with
  | O => []
  | S n' =>
      map (action_at ctrl g) (seq j (NUM_NODES * 3))
      :: cell_actions_from ctrl g (j + NUM_NODES * 3) n'
  end.

(** [torch.clamp(x, lo, hi)] on one entry. *)
Definition clamp (lo hi x : R) : R := Rmin (Rmax x lo) hi.

(** [nn.MSELoss()(input, target)]: both are broadcast to a common shape. *)
Definition mse_loss (input target : tensor) : result R :=
  d <- tsub input target ;;
  Ok (tmean (tmap (fun x => x * x) d)).

(** [ppo_update].  [actions] is the list of the architectures sampled
    in the evaluation loop; [detach] does not change values. *)
Definition ppo_update (ppo_controller : PPOController)
           (old_log_probs old_values rewards : tensor)
           (actions : list (list (list nat))) (epsilon : R) (g : rng)
  : result (R * rng) :=
  '(new_actions, new_log_probs, new_values, g') <-
     forward ppo_controller (length actions) g ;;
  d <- tsub new_log_probs old_log_probs ;;
  let ratios := tmap exp d in
  advantages <- tsub rewards old_values ;;
  surr1 <- tmul ratios advantages ;;
  surr2 <- tmul (tmap (clamp (1 - epsilon) (1 + epsilon)) ratios) advantages ;;
  m <- tmin surr1 surr2 ;;
  let actor_loss := - tmean m in
  critic_loss <- mse_loss new_values rewards ;;
  Ok (actor_loss + 0.5 * critic_loss, g').

Section Train.
Variables Net X : Type.
Variable predict : Net -> X -> list (list nat) -> list nat.

(** [len(network.cells)] *)
Variable cells : Net -> nat.

(** One supervised step on the shared weights (lines 126-130). *)
Variable network_step : Net -> X -> list nat -> list (list nat) -> Net.

(** [loss.backward(); ppo_optim.step()] after a call of [ppo_update] on
    the given batch (lines 155-156). *)
Variable ppo_step :
  PPOController -> tensor -> tensor -> tensor -> rng -> PPOController.

Fixpoint train_shared (ctrl : PPOController) (network : Net)
         (train_data : list (X * list nat)) (g : rng) : result (Net * rng) :=
  match train_data with
  | [] => Ok (network, g)
  | (x, y) :: rest =>
      '(actions, _, _, g') <- forward ctrl (cells network) g ;;
      train_shared ctrl (network_step network x y actions) rest g'
  end.

(** What the evaluation loop (lines 134-145) has collected. *)
Record batch : Type := {
  rewards : list R;
  old_log_probs_list : list tensor;
  old_values_list : list tensor;
  actions_list : list (list (list nat))
}.

Definition empty_batch : batch :=
  {| rewards := []; old_log_probs_list := []; old_values_list := [];
     actions_list := [] |}.

Fixpoint sample_loop (k : nat) (ctrl : PPOController) (network : Net)
         (val_data : list (X * list nat)) (g : rng) (b : batch)
  : result (batch * rng) :=
  match k with
  | O => Ok (b, g)
  | S k' =>
      '(actions, log_probs, values, g') <- forward ctrl (cells network) g ;;
      acc <- evaluate predict network actions val_data ;;
      sample_loop k' ctrl network val_data g'
        {| rewards := rewards b ++ [acc];
           old_log_probs_list := old_log_probs_list b ++ [log_probs];
           old_values_list := old_values_list b ++ [values];
           actions_list := actions_list b ++ [actions] |}
  end.

(** The update steps of lines 152-156. *)
Fixpoint ppo_steps (k : nat) (ctrl : PPOController)
         (old_log_probs old_values rewards_t : tensor)
         (actions : list (list (list nat))) (g : rng)
  : result (PPOController * rng) :=
  match k with
  | O => Ok (ctrl, g)
  | S k' =>
      '(_, g') <- ppo_update ctrl old_log_probs old_values rewards_t actions
                             0.2 g ;;
      ppo_steps k' (ppo_step ctrl old_log_probs old_values rewards_t g)
                old_log_probs old_values rewards_t actions g'
  end.

(** The controller phase of one epoch (lines 132-156). *)
Definition controller_phase (network : Net) (ctrl : PPOController)
           (val_data : list (X * list nat)) (g : rng)
  : result (PPOController * rng) :=
  '(b, g1) <- sample_loop 10 ctrl network val_data g empty_batch ;;
  let rewards_t := vec (rewards b) in
  old_log_probs <- cat (old_log_probs_list b) ;;
  old_values <- cat (old_values_list b) ;;
  ppo_steps 5 ctrl old_log_probs old_values rewards_t (actions_list b) g1.

End Train.

End PPO.


(** ** Recipe 8: uncertainty-aware ENAS *)

Module Uncertainty.

Definition NUM_OPS : nat := 5.
Definition NUM_NODES : nat := 4.

(** *** [torch.distributions.Normal] *)

Record Normal : Type := { loc : tensor; scale : tensor }.

Definition positiveb (x : R) : bool := if Rlt_dec 0 x then true else false.

Definition all_positive (t : tensor) : bool :=
  forallb (forallb positiveb) (rows t).

(** [dist.Normal(mean, std)]: the arguments are broadcast against each
    other and [scale] is validated against its constraint [positive]. *)
Definition mkNormal (mean std : tensor) : result Normal :=
  l <- tbinop (fun a _ => a) mean std ;;
  s <- tbinop (fun _ b => b) mean std ;;
  if all_positive s then Ok {| loc := l; scale := s |} else Raise ValueError.

(** [d.log_prob(value)], the formula of torch:
    [-((value - loc) ** 2) / (2 * var) - log_scale - log(sqrt(2 * pi))]. *)
Definition log_prob (d : Normal) (value : tensor) : result tensor :=
  let var := tmap (fun s => s * s) (scale d) in
  let log_scale := tmap ln (scale d) in
  diff <- tsub value (loc d) ;;
  q <- tdiv (tmap (fun x => - (x * x)) diff) (tmap (fun v => 2 * v) var) ;;
  r <- tsub q log_scale ;;
  Ok (tmap (fun x => x - ln (sqrt (2 * PI))) r).

(** *** The controller *)

Record UncertaintyAwareController : Type := {
  hidden_size : nat;
  lstm : list R -> list R * list R -> list R * list R;
  actor : list R -> nat -> R;
  critic_mean : list R -> R;
  critic_std : list R -> R
}.

Record fstate : Type := {
  st_hc : list R * list R;
  st_g : rng;
  st_log_probs : list R;
  st_value_dists : list Normal
}.

(** The inner loop (lines 63-73). *)
Fixpoint node_loop (ctrl : UncertaintyAwareController) (k : nat) (s : fstate)
         (cell_actions : list nat) : result (list nat * fstate) :=
  match k with
  | O => Ok (cell_actions, s)
  | S k' =>
      let x := zeros NUM_OPS in
      let hc' := lstm ctrl x (st_hc s) in
      let logits := head_out NUM_OPS (actor ctrl) (fst hc') in
      let probs := softmax logits in
      let (u, g') := draw (st_g s) in
      let action := multinomial probs u in
      let mean := t11 (critic_mean ctrl (fst hc')) in
      let std := tmap exp (t11 (critic_std ctrl (fst hc'))) in
      vd <- mkNormal mean std ;;
      node_loop ctrl k'
        {| st_hc := hc'; st_g := g';
           st_log_probs := st_log_probs s ++ [ln (nth action probs 0)];
           st_value_dists := st_value_dists s ++ [vd] |}
        (cell_actions ++ [action])
  end.

(** The outer loop (lines 61-74). *)
Fixpoint cell_loop (ctrl : UncertaintyAwareController) (n : nat) (s : fstate)
         (actions : list (list nat)) : result (list (list nat) * fstate) :=
  match n with
  | O => Ok (actions, s)
  | S n' =>
      '(cell_actions, s') <- node_loop ctrl (NUM_NODES * 3) s [] ;;
      cell_loop ctrl n' s' (actions ++ [cell_actions])
  end.

Definition forward (ctrl : UncertaintyAwareController) (num_cells : nat)
           (g : rng) : result (list (list nat) * tensor * list Normal * rng) :=
  let s0 := {| st_hc := (zeros (hidden_size ctrl), zeros (hidden_size ctrl));
               st_g := g; st_log_probs := []; st_value_dists := [] |} in
  '(actions, s) <- cell_loop ctrl num_cells s0 [] ;;
  lp <- stack (st_log_probs s) ;;
  Ok (actions, lp, st_value_dists s, st_g s).

(** The decision steps of one call of [forward], by position in the
    flattened sequence of decisions. *)
Definition state_at (ctrl : UncertaintyAwareController) (j : nat)
  : list R * list R :=
  Nat.iter j (lstm ctrl (zeros NUM_OPS))
           (zeros (hidden_size ctrl), zeros (hidden_size ctrl)).
Definition logits_at (ctrl : UncertaintyAwareController) (j : nat) : list R :=
  head_out NUM_OPS (actor ctrl) (fst (state_at ctrl (S j))).
Definition action_at (ctrl : UncertaintyAwareController) (g : rng) (j : nat)
  : nat :=
  multinomial (softmax (logits_at ctrl j)) (draw_at g j).
Definition log_prob_at (ctrl : UncertaintyAwareController) (g : rng) (j : nat)
  : R :=
  ln (nth (action_at ctrl g j) (softmax (logits_at ctrl j)) 0).

(** The mean, the raw output of the [critic_std] head and the value
    distribution at step [j]. *)
Definition mean_at (ctrl : UncertaintyAwareController) (j : nat) : R :=
  critic_mean ctrl (fst (state_at ctrl (S j))).
Definition raw_std_at (ctrl : UncertaintyAwareController) (j : nat) : R :=
  critic_std ctrl (fst (state_at ctrl (S j))).
Definition dist_at (ctrl : UncertaintyAwareController) (j : nat) : Normal :=
  {| loc := t11 (mean_at ctrl j); scale := t11 (exp (raw_std_at ctrl j)) |}.

Fixpoint cell_actions_from (ctrl : UncertaintyAwareController) (g : rng)
         (j n : nat) : list (list nat) :=
  match n with
  | O => []
  | S n' =>
      map (action_at ctrl g) (seq j (NUM_NODES * 3))
      :: cell_actions_from ctrl g (j + NUM_NODES * 3) n'
  end.

(** The density of the Gaussian of mean [mu] and standard deviation
    [sigma]. *)
Definition gauss_pdf (mu sigma x : R) : R :=
  / (sigma * sqrt (2 * PI)) * exp (- ((x - mu) * (x - mu)) / (2 * (sigma * sigma))).

(** *** The controller update *)

(** [actor_loss] and [critic_loss] start as the Python int [0] and become
    tensors at the first [-=]. *)
Inductive pynum : Type :=
| PyInt (z : Z)
| PyTensor (t : tensor).

Definition pysub (a : pynum) (t : tensor) : result pynum :=
  match a with
  | PyInt z => r <- tsub (scalar (IZR z)) t ;; Ok (PyTensor r)
  | PyTensor a' => r <- tsub a' t ;; Ok (PyTensor r)
  end.

Definition pymean (a : pynum) : result R :=
  match a with
  | PyInt _ => Raise AttributeError
  | PyTensor t => Ok (tmean t)
  end.

Fixpoint zip3 {A B C : Type} (l : list A) (m : list B) (n : list C)
  : list (A * B * C) :=
  match l, m, n with
  | a :: l', b :: m', c :: n' => (a, b, c) :: zip3 l' m' n'
  | _, _, _ => []
  end.

(** The loop of lines 152-155; [detach] does not change values. *)
Fixpoint loss_loop (l : list (R * tensor * list Normal))
         (actor_loss critic_loss : pynum) : result (pynum * pynum) :=
  match l with
  | [] => Ok (actor_loss, critic_loss)
  | (r, lp, vd) :: l' =>
      match vd with
      | [] => Raise IndexError
      | vd0 :: _ =>
          advantage <- tsub (scalar r) (loc vd0) ;;
          a <- tmul lp advantage ;;
          actor_loss' <- pysub actor_loss a ;;
          nll <- log_prob vd0 (scalar r) ;;
          critic_loss' <- pysub critic_loss nll ;;
          loss_loop l' actor_loss' critic_loss'
      end
  end.

(** Lines 150-157: the scalar [loss]. *)
Definition controller_loss (rewards : list R) (log_probs_list : list tensor)
           (value_dists_list : list (list Normal)) : result R :=
  '(actor_loss, critic_loss) <-
     loss_loop (zip3 rewards log_probs_list value_dists_list)
               (PyInt 0) (PyInt 0) ;;
  am <- pymean actor_loss ;;
  cm <- pymean critic_loss ;;
  Ok (am + 0.5 * cm).

(** What the update reads of one sampled architecture: its reward, its
    log-probabilities, and its list of value distributions, whose first
    element has mean [s_mean] and standard deviation [s_std]. *)
Record sample : Type := {
  s_reward : R;
  s_log_probs : list R;
  s_mean : R;
  s_std : R;
  s_rest : list Normal
}.

Definition s_dists (a : sample) : list Normal :=
  {| loc := t11 (s_mean a); scale := t11 (s_std a) |} :: s_rest a.

(** The triple that [zip(rewards, log_probs_list, value_dists_list)]
    yields for a sample. *)
Definition s_triple (a : sample) : R * tensor * list Normal :=
  (s_reward a, vec (s_log_probs a), s_dists a).

(** The advantage of a sample and its two contributions, as section 4.2
    of the specification words them. *)
Definition s_advantage (a : sample) : R := s_reward a - s_mean a.
Definition s_actor (a : sample) : list R :=
  map (fun lp => - (lp * s_advantage a)) (s_log_probs a).
Definition s_critic (a : sample) : R :=
  - ln (gauss_pdf (s_mean a) (s_std a) (s_reward a)).

Section Train.
Variables Net X : Type.
Variable predict : Net -> X -> list (list nat) -> list nat.

(** [len(network.cells)] *)
Variable cells : Net -> nat.

(** One supervised step on the shared weights (lines 126-130). *)
Variable network_step : Net -> X -> list nat -> list (list nat) -> Net.

(** [loss.backward(); controller_optim.step()] (lines 158-159). *)
Variable controller_step :
  UncertaintyAwareController -> list R -> list tensor -> list (list Normal) ->
  UncertaintyAwareController.

Fixpoint train_shared (ctrl : UncertaintyAwareController) (network : Net)
         (train_data : list (X * list nat)) (g : rng) : result (Net * rng) :=
  match train_data with
  | [] => Ok (network, g)
  | (x, y) :: rest =>
      '(actions, _, _, g') <- forward ctrl (cells network) g ;;
      train_shared ctrl (network_step network x y actions) rest g'
  end.

(** The evaluation loop (lines 134-143). *)
Fixpoint sample_loop (k : nat) (ctrl : UncertaintyAwareController)
         (network : Net) (val_data : list (X * list nat)) (g : rng)
         (rewards : list R) (log_probs_list : list tensor)
         (value_dists_list : list (list Normal))
  : result (list R * list tensor * list (list Normal) * rng) :=
  match k with
  | O => Ok (rewards, log_probs_list, value_dists_list, g)
  | S k' =>
      '(actions, log_probs, value_dists, g') <-
         forward ctrl (cells network) g ;;
      acc <- evaluate predict network actions val_data ;;
      sample_loop k' ctrl network val_data g' (rewards ++ [acc])
                  (log_probs_list ++ [log_probs])
                  (value_dists_list ++ [value_dists])
  end.

(** The controller phase of one epoch (lines 132-159). *)
Definition controller_phase (network : Net)
           (ctrl : UncertaintyAwareController)
           (val_data : list (X * list nat)) (g : rng)
  : result (UncertaintyAwareController * R * rng) :=
  '(rewards, log_probs_list, value_dists_list, g1) <-
     sample_loop 10 ctrl network val_data g [] [] [] ;;
  log_probs <- cat log_probs_list ;;
  loss <- controller_loss rewards log_probs_list value_dists_list ;;
  Ok (controller_step ctrl rewards log_probs_list value_dists_list, loss, g1).

End Train.

End Uncertainty.


(** ** Recipe 1: the weight-sharing network [SharedCNN] *)

Module SharedNet.

Section Net.
(** Feature maps, pooled features and class scores. *)
Variables T F Out : Type.

(** [nn.ReLU()], [nn.Tanh()] and [x.mean([2, 3])] on feature maps. *)
Variable relu_op : T -> T.
Variable tanh_op : T -> T.
Variable spatial_mean : T -> F.

(** The trained modules: [input_conv], the [ModuleList] [layers] and
    [classifier]. *)
Record SharedCNN : Type := {
  input_conv : T -> T;
  layers : list (T -> T);
  classifier : F -> Out
}.

(** [self.ops]: ReLU, Tanh, Identity. *)
Definition ops : list (T -> T) := [relu_op; tanh_op; fun x => x].

(** The loop of lines 61-63.  [zip] stops at the shorter of [layers] and
    [actions]; [self.ops[action]] raises on an index past the list. *)
Fixpoint apply_layers (ls : list (T -> T)) (actions : list nat) (x : T)
  : result T :=
  match ls, actions with
  | layer :: ls', action :: actions' =>
      let x1 := layer x in
      match nth_error ops action with
      | Some op => apply_layers ls' actions' (op x1)
      | None => Raise IndexError
      end
  | _, _ => Ok x
  end.

Definition forward (net : SharedCNN) (x : T) (actions : list nat)
  : result Out :=
  x' <- apply_layers (layers net) actions (input_conv net x) ;;
  Ok (classifier net (spatial_mean x')).

(** The operations an architecture selects, one per layer used. *)
Fixpoint selected (ls : list (T -> T)) (actions : list nat) : list (T -> T) :=
  match ls, actions with
  | layer :: ls', action :: actions' =>
      (fun x => nth action ops (fun y => y) (layer x)) :: selected ls' actions'
  | _, _ => []
  end.

End Net.

End SharedNet.

(** ** Recipe 8: [Cell] and [Network]

    The architecture reaches these two functions as a Python value: an
    int, or a list of values. *)

Module CellNet.

#[warnings="-register-all"]
Inductive pyval : Type :=
| PInt (n : nat)
| PList (l : list pyval).

Inductive pyexn : Type :=
| TypeError            (* unpacking or subscripting an int *)
| Other (e : exn).

Inductive outcome (A : Type) : Type :=
| Returned (a : A)
| Threw (e : pyexn).

Arguments Returned {A} a.
Arguments Threw {A} e.

Definition obind {A B : Type} (m : outcome A) (k : A -> outcome B)
  : outcome B :=
  match m with
  | Returned a => k a
  | Threw e => Threw e
  end.

(** What the controllers return as [actions]: a list of cells, each a
    list of ints. *)
Definition of_cell (cell_actions : list nat) : pyval :=
  PList (map PInt cell_actions).
Definition of_actions (actions : list (list nat)) : pyval :=
  PList (map of_cell actions).

(** [(op1, op2, combine) = v] *)
Definition unpack3 (v : pyval) : outcome (pyval * pyval * pyval) :=
  match v with
  | PInt _ => Threw TypeError
  | PList [a; b; c] => Returned (a, b, c)
  | PList _ => Threw (Other ValueError)
  end.

(** [v[i]] on a Python value. *)
Definition subscript (v : pyval) (i : nat) : outcome pyval :=
  match v with
  | PInt _ => Threw TypeError
  | PList l =>
      match nth_error l i with
      | Some x => Returned x
      | None => Threw (Other IndexError)
      end
  end.

(** The elements [zip] iterates over. *)
Definition iterate (v : pyval) : outcome (list pyval) :=
  match v with
  | PInt _ => Threw TypeError
  | PList l => Returned l
  end.

Section Net.
Variables T Out Node : Type.

(** [node(x, w)] for a node of the cell ([MixedOp] is not in the
    repository), and [s1 + s2]. *)
Variable node_apply : Node -> T -> pyval -> outcome T.
Variable add : T -> T -> T.

(** [states[op]] *)
Definition state_at_index (states : list T) (op : pyval) : outcome T :=
  match op with
  | PInt n =>
      match nth_error states n with
      | Some s => Returned s
      | None => Threw (Other IndexError)
      end
  | PList _ => Threw TypeError
  end.

(** The loop of [Cell.forward] (lines 84-87). *)
Fixpoint cell_nodes (nodes : list Node) (actions : list pyval)
         (states : list T) : outcome (list T) :=
  match nodes, actions with
  | node :: nodes', a :: actions' =>
      obind (unpack3 a) (fun '(op1, op2, combine) =>
      obind (state_at_index states op1) (fun x1 =>
      obind (subscript combine 0) (fun w1 =>
      obind (node_apply node x1 w1) (fun s1 =>
      obind (state_at_index states op2) (fun x2 =>
      obind (subscript combine 1) (fun w2 =>
      obind (node_apply node x2 w2) (fun s2 =>
      cell_nodes nodes' actions' (states ++ [add s1 s2]))))))))
  | _, _ => Returned states
  end.

(** [Cell.forward]: [states[-1]] is the last state; [states] starts as
    [[x]] and only grows. *)
Definition cell_forward (nodes : list Node) (x : T) (actions : pyval)
  : outcome T :=
  obind (iterate actions) (fun l =>
  obind (cell_nodes nodes l [x]) (fun states =>
  Returned (last states x))).

(** [Network]: the stem, the cells (each the list of its nodes) and the
    classifier applied to the spatial mean. *)
Record Network : Type := {
  stem : T -> T;
  cells : list (list Node);
  head : T -> Out
}.

(** The loop of [Network.forward] (lines 99-100). *)
Fixpoint run_cells (cs : list (list Node)) (actions : list pyval) (x : T)
  : outcome T :=
  match cs, actions with
  | cell :: cs', cell_action :: actions' =>
      obind (cell_forward cell x cell_action) (fun x' =>
      run_cells cs' actions' x')
  | _, _ => Returned x
  end.

Definition forward (net : Network) (x : T) (actions : pyval) : outcome Out :=
  obind (iterate actions) (fun l =>
  obind (run_cells (cells net) l (stem net x)) (fun x' =>
  Returned (head net x'))).

End Net.

End CellNet.

(** ** Concrete inputs *)

Module Inputs.

(** A generator whose draws are all [0], and one whose draws are all
    [2/5]. *)
Definition g0 : rng := {| stream := fun _ => 0; pos := 0 |}.
Definition g1 : rng := {| stream := fun _ => 2 / 5; pos := 0 |}.

(** An [nn.LSTMCell] whose weights and biases are all zero: the gates are
    [sigmoid 0 = 1/2] and the candidate is [tanh 0 = 0]. *)
Definition lstm0 (_ : list R) (hc : list R * list R) : list R * list R :=
  let c' := map (fun c => c / 2) (snd hc) in
  (map (fun c => tanh c / 2) c', c').

(** Controllers with zero weights; the actor of [ppo_ctrl] has the bias
    [(ln 2, 0, 0, 0, 0)]. *)
Definition basic_ctrl : Basic.Controller :=
  {| Basic.hidden_size := 1; Basic.lstm := lstm0;
     Basic.linear := fun _ _ => 0 |}.

Definition ppo_ctrl : PPO.PPOController :=
  {| PPO.hidden_size := 1; PPO.lstm := lstm0;
     PPO.actor := fun _ i => match i with O => ln 2 | _ => 0 end;
     PPO.critic := fun _ => 0 |}.

Definition unc_ctrl : Uncertainty.UncertaintyAwareController :=
  {| Uncertainty.hidden_size := 1; Uncertainty.lstm := lstm0;
     Uncertainty.actor := fun _ _ => 0;
     Uncertainty.critic_mean := fun _ => 0;
     Uncertainty.critic_std := fun _ => 0 |}.

(** A weight-sharing network that answers class [0] on both examples of a
    batch whatever the architecture, and a validation set of one batch on
    which this is right once: every architecture is rewarded [1/2]. *)
Definition predict_half (Net A : Type) (_ : Net) (_ : unit) (_ : A)
  : list nat :=
  [0%nat; 0%nat].
Definition val_half : list (unit * list nat) := [(tt, [0%nat; 1%nat])].

(** A network of [n] cells, as its number of cells. *)
Definition cells_of (n : nat) : nat := n.

End Inputs.

(** The number of labelled examples of a dataset, over all batches. *)
Definition num_examples {X : Type} (data : list (X * list nat)) : nat :=
  list_sum (map (fun xy => length (snd xy)) data).

(** Further concrete inputs. *)

Module MoreInputs.

(** A [SharedCNN] on real numbers standing for feature maps, with
    [NUM_LAYERS] layers that each add one. *)
Definition shared_net : SharedNet.SharedCNN R R R :=
  {| SharedNet.input_conv := fun x => x;
     SharedNet.layers := repeat (fun x => x + 1) Basic.NUM_LAYERS;
     SharedNet.classifier := fun x => x |}.

(** A [Network] of one cell of [NUM_NODES] nodes. *)
Definition cell_net : CellNet.Network R R unit :=
  {| CellNet.stem := fun x => x;
     CellNet.cells := [repeat tt Uncertainty.NUM_NODES];
     CellNet.head := fun x => x |}.

End MoreInputs.

(** * Properties *)

(** ** The error monad *)

Lemma bind_Ok {A B : Type} (m : result A) (k : A -> result B) (b : B) :
  bind m k = Ok b -> exists a, m = Ok a /\ k a = Ok b.
Proof.
  destruct m as [a|e]; simpl; intros H.
  - exists a; split; [reflexivity | exact H].
  - discriminate H.
Qed.

(** ** Generator *)

Lemma draw_advance (g : rng) (j : nat) :
  draw (advance j g) = (draw_at g j, advance (S j) g).
Proof.
  unfold draw, advance, draw_at; simpl.
  now rewrite Nat.add_succ_r.
Qed.

Lemma advance_0 (g : rng) : advance 0 g = g.
Proof.
  destruct g as [s p]; unfold advance; simpl.
  now rewrite Nat.add_0_r.
Qed.

Lemma advance_advance (a b : nat) (g : rng) :
  advance b (advance a g) = advance (a + b) g.
Proof.
  unfold advance; simpl. now rewrite Nat.add_assoc.
Qed.

Lemma draw_at_advance (a j : nat) (g : rng) :
  draw_at (advance a g) j = draw_at g (a + j).
Proof.
  unfold draw_at, advance; simpl. now rewrite Nat.add_assoc.
Qed.

(** ** Softmax and categorical draws *)

Lemma head_out_length (n : nat) (head : list R -> nat -> R) (h : list R) :
  length (head_out n head h) = n.
Proof.
  unfold head_out. now rewrite length_map, length_seq.
Qed.

Lemma softmax_length (l : list R) : length (softmax l) = length l.
Proof.
  unfold softmax. now rewrite length_map.
Qed.

Lemma Rsum_exp_pos (l : list R) : l <> [] -> 0 < Rsum (map exp l).
Proof.
  assert (G : forall m, 0 <= Rsum (map exp m)).
  { induction m as [|y m IH]; simpl; [lra|].
    pose proof (exp_pos y); lra. }
  destruct l as [|x l]; [congruence|]; intros _; simpl.
  pose proof (exp_pos x). pose proof (G l). lra.
Qed.

Lemma softmax_pos (l : list R) : Forall (fun p => 0 < p) (softmax l).
Proof.
  destruct l as [|x l]; [constructor|].
  assert (Z : 0 < Rsum (map exp (x :: l))) by (apply Rsum_exp_pos; congruence).
  unfold softmax. apply Forall_forall. intros p Hp.
  apply in_map_iff in Hp. destruct Hp as [y [<- _]].
  apply Rdiv_lt_0_compat; [apply exp_pos | exact Z].
Qed.

Lemma multinomial_from_cons2 (i : nat) (p q : R) (rest : list R) (u : R) :
  multinomial_from i (p :: q :: rest) u =
  if Rlt_dec u p then i else multinomial_from (S i) (q :: rest) (u - p).
Proof. reflexivity. Qed.

Lemma multinomial_from_lt (probs : list R) :
  forall i u, probs <> [] ->
  (multinomial_from i probs u < i + length probs)%nat.
Proof.
  induction probs as [|p rest IH]; intros i u Hne; [congruence|].
  destruct rest as [|q rest'].
  - simpl. lia.
  - rewrite multinomial_from_cons2. destruct (Rlt_dec u p).
    + simpl length. lia.
    + assert (H : q :: rest' <> []) by congruence.
      specialize (IH (S i) (u - p) H). simpl length in *. lia.
Qed.

Lemma multinomial_lt (probs : list R) (u : R) :
  probs <> [] -> (multinomial probs u < length probs)%nat.
Proof.
  intros H. unfold multinomial.
  now apply (multinomial_from_lt probs 0%nat u).
Qed.

Lemma multinomial_softmax_lt (n : nat) (head : list R -> nat -> R)
      (h : list R) (u : R) :
  (0 < n)%nat ->
  (multinomial (softmax (head_out n head h)) u < n)%nat.
Proof.
  intros Hn.
  pose proof (multinomial_lt (softmax (head_out n head h)) u) as H.
  rewrite softmax_length, head_out_length in H. apply H.
  intros E. apply (f_equal (@length R)) in E.
  rewrite softmax_length, head_out_length in E. simpl in E. lia.
Qed.

(** ** Tensors *)

Lemma stack_vec (l : list R) : l <> [] -> stack l = Ok (vec l).
Proof.
  destruct l; [congruence | reflexivity].
Qed.

Lemma shape_vec (l : list R) : shape (vec l) = [length l].
Proof. reflexivity. Qed.

Lemma bdim_None (a b : nat) :
  a <> b -> a <> 1%nat -> b <> 1%nat -> bdim a b = None.
Proof.
  intros H1 H2 H3. unfold bdim.
  apply Nat.eqb_neq in H1, H2, H3. now rewrite H1, H2, H3.
Qed.

Lemma tbinop_vec_mismatch (f : R -> R -> R) (l m : list R) :
  length l <> length m -> length l <> 1%nat -> length m <> 1%nat ->
  tbinop f (vec l) (vec m) = Raise RuntimeError.
Proof.
  intros H1 H2 H3. unfold tbinop; simpl.
  now rewrite (bdim_None _ _ H1 H2 H3).
Qed.

Lemma cat_rest_col (l2 : list R) :
  forall l1, cat_rest (col l1) (map t11 l2) = Ok (col (l1 ++ l2)).
Proof.
  induction l2 as [|v l2 IH]; intros l1; simpl.
  - now rewrite app_nil_r.
  - replace (mkT 2 (length l1 + 1) 1 (map (fun x => [x]) l1 ++ [[v]]))
      with (col (l1 ++ [v])).
    + rewrite IH. now rewrite <- app_assoc.
    + unfold col. now rewrite length_app, map_app.
Qed.

Lemma cat_t11 (l : list R) : l <> [] -> cat (map t11 l) = Ok (col l).
Proof.
  destruct l as [|v l]; [congruence|]; intros _.
  simpl. apply (cat_rest_col l [v]).
Qed.

(** ** Recipe 1: the sampler in closed form *)

Lemma basic_forward_loop_spec (ctrl : Basic.Controller) (g : rng) :
  forall n j actions log_probs,
  Basic.forward_loop ctrl n (Basic.state_at ctrl j) (advance j g)
                     actions log_probs =
  (actions ++ map (Basic.action_at ctrl g) (seq j n),
   log_probs ++ map (Basic.log_prob_at ctrl g) (seq j n),
   advance (j + n) g).
Proof.
  induction n as [|n IH]; intros j actions log_probs.
  - simpl. now rewrite !app_nil_r, Nat.add_0_r.
  - cbn [Basic.forward_loop]. rewrite draw_advance.
    change (Basic.lstm ctrl (zeros Basic.NUM_OPS) (Basic.state_at ctrl j))
      with (Basic.state_at ctrl (S j)).
    rewrite IH. cbn [seq map].
    rewrite <- !app_assoc. cbn [app].
    now rewrite Nat.add_succ_r.
Qed.

Lemma basic_forward_spec (ctrl : Basic.Controller) (g : rng) (n : nat) :
  (1 <= n)%nat ->
  Basic.forward ctrl n g =
  Ok (map (Basic.action_at ctrl g) (seq 0 n),
      vec (map (Basic.log_prob_at ctrl g) (seq 0 n)),
      advance n g).
Proof.
  intros Hn. unfold Basic.forward.
  pose proof (basic_forward_loop_spec ctrl g n 0 [] []) as H.
  rewrite advance_0 in H. change (Basic.state_at ctrl 0)
    with (zeros (Basic.hidden_size ctrl), zeros (Basic.hidden_size ctrl)) in H.
  rewrite H. cbn [app Nat.add].
  rewrite stack_vec; [reflexivity|].
  destruct n; [lia|]. cbn [seq map]. congruence.
Qed.

Lemma basic_forward_0 (ctrl : Basic.Controller) (g : rng) :
  Basic.forward ctrl 0 g = Raise RuntimeError.
Proof. reflexivity. Qed.

Lemma basic_action_lt (ctrl : Basic.Controller) (g : rng) (j : nat) :
  (Basic.action_at ctrl g j < Basic.NUM_OPS)%nat.
Proof.
  unfold Basic.action_at, Basic.logits_at.
  apply multinomial_softmax_lt. unfold Basic.NUM_OPS. lia.
Qed.

(** ** Recipe 3: the sampler in closed form *)

Lemma ppo_node_loop_spec (ctrl : PPO.PPOController) (g : rng) :
  forall k j lps vs cell_actions,
  PPO.node_loop ctrl k
    {| PPO.st_hc := PPO.state_at ctrl j; PPO.st_g := advance j g;
       PPO.st_log_probs := lps; PPO.st_values := vs |} cell_actions =
  (cell_actions ++ map (PPO.action_at ctrl g) (seq j k),
   {| PPO.st_hc := PPO.state_at ctrl (j + k); PPO.st_g := advance (j + k) g;
      PPO.st_log_probs := lps ++ map (PPO.log_prob_at ctrl g) (seq j k);
      PPO.st_values := vs ++ map (fun i => t11 (PPO.value_at ctrl i)) (seq j k) |}).
Proof.
  induction k as [|k IH]; intros j lps vs cell_actions.
  - simpl. now rewrite !app_nil_r, Nat.add_0_r.
  - cbn [PPO.node_loop PPO.st_hc PPO.st_g PPO.st_log_probs PPO.st_values].
    rewrite draw_advance.
    change (PPO.lstm ctrl (zeros PPO.NUM_OPS) (PPO.state_at ctrl j))
      with (PPO.state_at ctrl (S j)).
    rewrite IH. cbn [seq map].
    rewrite <- !app_assoc. cbn [app].
    now rewrite Nat.add_succ_r.
Qed.

Lemma ppo_cell_loop_spec (ctrl : PPO.PPOController) (g : rng) :
  forall n j lps vs actions,
  PPO.cell_loop ctrl n
    {| PPO.st_hc := PPO.state_at ctrl j; PPO.st_g := advance j g;
       PPO.st_log_probs := lps; PPO.st_values := vs |} actions =
  (actions ++ PPO.cell_actions_from ctrl g j n,
   {| PPO.st_hc := PPO.state_at ctrl (j + n * (PPO.NUM_NODES * 3));
      PPO.st_g := advance (j + n * (PPO.NUM_NODES * 3)) g;
      PPO.st_log_probs :=
        lps ++ map (PPO.log_prob_at ctrl g) (seq j (n * (PPO.NUM_NODES * 3)));
      PPO.st_values :=
        vs ++ map (fun i => t11 (PPO.value_at ctrl i))
                  (seq j (n * (PPO.NUM_NODES * 3))) |}).
Proof.
  set (K := (PPO.NUM_NODES * 3)%nat).
  induction n as [|n IH]; intros j lps vs actions.
  - simpl. now rewrite !app_nil_r, Nat.add_0_r.
  - cbn [PPO.cell_loop PPO.cell_actions_from]. fold K.
    rewrite ppo_node_loop_spec. cbn [app]. rewrite IH.
    rewrite <- !app_assoc. cbn [app].
    replace (S n * K)%nat with (K + n * K)%nat by lia.
    rewrite !seq_app, !map_app, Nat.add_assoc. reflexivity.
Qed.

Lemma ppo_cell_actions_concat (ctrl : PPO.PPOController) (g : rng) :
  forall n j,
  concat (PPO.cell_actions_from ctrl g j n) =
  map (PPO.action_at ctrl g) (seq j (n * (PPO.NUM_NODES * 3))).
Proof.
  set (K := (PPO.NUM_NODES * 3)%nat).
  induction n as [|n IH]; intros j; [reflexivity|].
  cbn [PPO.cell_actions_from concat]. fold K. rewrite IH.
  replace (S n * K)%nat with (K + n * K)%nat by lia.
  now rewrite seq_app, map_app.
Qed.

Lemma ppo_cell_actions_length (ctrl : PPO.PPOController) (g : rng) :
  forall n j, length (PPO.cell_actions_from ctrl g j n) = n.
Proof.
  induction n as [|n IH]; intros j; [reflexivity|].
  cbn [PPO.cell_actions_from length]. now rewrite IH.
Qed.

Lemma ppo_cell_actions_each (ctrl : PPO.PPOController) (g : rng) :
  forall n j,
  Forall (fun cell => length cell = (PPO.NUM_NODES * 3)%nat)
         (PPO.cell_actions_from ctrl g j n).
Proof.
  induction n as [|n IH]; intros j; [constructor|].
  cbn [PPO.cell_actions_from]. constructor; [|apply IH].
  now rewrite length_map, length_seq.
Qed.

Lemma ppo_forward_spec (ctrl : PPO.PPOController) (g : rng) (n : nat) :
  (1 <= n)%nat ->
  PPO.forward ctrl n g =
  Ok (PPO.cell_actions_from ctrl g 0 n,
      vec (map (PPO.log_prob_at ctrl g) (seq 0 (n * (PPO.NUM_NODES * 3)))),
      col (map (PPO.value_at ctrl) (seq 0 (n * (PPO.NUM_NODES * 3)))),
      advance (n * (PPO.NUM_NODES * 3)) g).
Proof.
  intros Hn. unfold PPO.forward.
  pose proof (ppo_cell_loop_spec ctrl g n 0 [] [] []) as H.
  rewrite advance_0 in H.
  change (PPO.state_at ctrl 0)
    with (zeros (PPO.hidden_size ctrl), zeros (PPO.hidden_size ctrl)) in H.
  rewrite H. cbn [app Nat.add PPO.st_log_probs PPO.st_values PPO.st_g].
  assert (Hne : seq 0 (n * (PPO.NUM_NODES * 3)) <> []).
  { destruct n; [lia|]. simpl. congruence. }
  rewrite stack_vec.
  2:{ intros E. apply Hne. now apply map_eq_nil in E. }
  cbn [bind].
  rewrite <- (map_map (PPO.value_at ctrl) t11).
  rewrite cat_t11.
  2:{ intros E. apply Hne. now apply map_eq_nil in E. }
  reflexivity.
Qed.

Lemma ppo_forward_0 (ctrl : PPO.PPOController) (g : rng) :
  PPO.forward ctrl 0 g = Raise RuntimeError.
Proof. reflexivity. Qed.

Lemma ppo_action_lt (ctrl : PPO.PPOController) (g : rng) (j : nat) :
  (PPO.action_at ctrl g j < PPO.NUM_OPS)%nat.
Proof.
  unfold PPO.action_at, PPO.logits_at.
  apply multinomial_softmax_lt. unfold PPO.NUM_OPS. lia.
Qed.

Lemma nth_map_seq {A : Type} (f : nat -> A) (d : A) (n j : nat) :
  (j < n)%nat -> nth j (map f (seq 0 n)) d = f j.
Proof.
  intros Hj.
  rewrite (nth_indep _ d (f 0%nat)) by now rewrite length_map, length_seq.
  rewrite (map_nth f (seq 0 n) 0%nat j). now rewrite seq_nth.
Qed.

Lemma Forall_map_seq {A : Type} (P : A -> Prop) (f : nat -> A) (j n : nat) :
  (forall i, P (f i)) -> Forall P (map f (seq j n)).
Proof.
  intros H. apply Forall_forall. intros x Hx.
  apply in_map_iff in Hx. destruct Hx as [i [<- _]]. apply H.
Qed.

(** ** The samplers: length and range of the actions, log-probabilities *)

(** C4.  For every number of cells [n >= 1], one call of [forward] returns:
    for the per-layer controller, [n] actions (so [NUM_LAYERS] actions for
    the call [controller(NUM_LAYERS)]) and [n] log-probabilities; for the
    cell-based controller, [n] cells of [NUM_NODES * 3] actions each, that is
    [n * NUM_NODES * 3] decisions and as many log-probabilities.  Every
    action is below [NUM_OPS]. *)
Theorem forward_action_count (n : nat) (Hn : (1 <= n)%nat) :
  (forall (ctrl : Basic.Controller) (g : rng),
     exists actions lps g',
       Basic.forward ctrl n g = Ok (actions, vec lps, g') /\
       length actions = n /\ length lps = n /\
       Forall (fun a => (a < Basic.NUM_OPS)%nat) actions) /\
  (forall (ctrl : PPO.PPOController) (g : rng),
     exists actions lps values g',
       PPO.forward ctrl n g = Ok (actions, vec lps, values, g') /\
       length actions = n /\
       Forall (fun cell => length cell = (PPO.NUM_NODES * 3)%nat) actions /\
       length (concat actions) = (n * PPO.NUM_NODES * 3)%nat /\
       length lps = (n * PPO.NUM_NODES * 3)%nat /\
       Forall (Forall (fun a => (a < PPO.NUM_OPS)%nat)) actions).
Proof.
  split.
  - intros ctrl g. eexists _, _, _. split; [apply basic_forward_spec, Hn|].
    rewrite !length_map, !length_seq. repeat split.
    apply Forall_map_seq. intros i. apply basic_action_lt.
  - intros ctrl g. eexists _, _, _, _. split; [apply ppo_forward_spec, Hn|].
    rewrite ppo_cell_actions_length, ppo_cell_actions_concat.
    rewrite !length_map, !length_seq.
    split; [reflexivity|]. split; [apply ppo_cell_actions_each|].
    split; [lia|]. split; [lia|].
    generalize 0%nat. induction n as [|m IH]; intros j; [constructor|].
    cbn [PPO.cell_actions_from]. constructor.
    + apply Forall_map_seq. intros i. apply ppo_action_lt.
    + destruct m as [|m]; [constructor|]. apply IH. lia.
Qed.

Lemma forward_action_count_witness :
  (1 <= Basic.NUM_LAYERS)%nat /\
  (forall (ctrl : Basic.Controller) (g : rng),
     exists actions lps g',
       Basic.forward ctrl Basic.NUM_LAYERS g = Ok (actions, vec lps, g') /\
       length actions = Basic.NUM_LAYERS /\ length lps = Basic.NUM_LAYERS /\
       Forall (fun a => (a < Basic.NUM_OPS)%nat) actions).
Proof.
  split; [unfold Basic.NUM_LAYERS; lia|].
  apply (forward_action_count Basic.NUM_LAYERS).
  unfold Basic.NUM_LAYERS; lia.
Defined.

(** C5.  At every decision step [j] of a call of [forward], the action is
    drawn from [softmax (logits_at j)] and the log-probability returned at
    position [j] is the logarithm of the entry of that same
    [softmax (logits_at j)] at the drawn action. *)
Theorem forward_log_prob_consistent (n : nat) (Hn : (1 <= n)%nat) :
  (forall (ctrl : Basic.Controller) (g : rng),
     exists actions lps g',
       Basic.forward ctrl n g = Ok (actions, vec lps, g') /\
       forall j, (j < n)%nat ->
         let probs := softmax (Basic.logits_at ctrl j) in
         nth j actions 0%nat = multinomial probs (draw_at g j) /\
         nth j lps 0 = ln (nth (nth j actions 0%nat) probs 0) /\
         0 < nth (nth j actions 0%nat) probs 0) /\
  (forall (ctrl : PPO.PPOController) (g : rng),
     exists actions lps values g',
       PPO.forward ctrl n g = Ok (actions, vec lps, values, g') /\
       forall j, (j < n * (PPO.NUM_NODES * 3))%nat ->
         let probs := softmax (PPO.logits_at ctrl j) in
         nth j (concat actions) 0%nat = multinomial probs (draw_at g j) /\
         nth j lps 0 = ln (nth (nth j (concat actions) 0%nat) probs 0) /\
         0 < nth (nth j (concat actions) 0%nat) probs 0).
Proof.
  assert (P : forall k head h u, (0 < k)%nat ->
            0 < nth (multinomial (softmax (head_out k head h)) u)
                    (softmax (head_out k head h)) 0).
  { intros k head h u Hk.
    pose proof (softmax_pos (head_out k head h)) as F.
    rewrite Forall_forall in F. apply F, nth_In.
    rewrite softmax_length, head_out_length.
    now apply multinomial_softmax_lt. }
  split.
  - intros ctrl g. eexists _, _, _. split; [apply basic_forward_spec, Hn|].
    intros j Hj probs. rewrite !nth_map_seq by exact Hj.
    repeat split. apply P. unfold Basic.NUM_OPS; lia.
  - intros ctrl g. eexists _, _, _, _. split; [apply ppo_forward_spec, Hn|].
    intros j Hj probs. rewrite ppo_cell_actions_concat.
    rewrite !nth_map_seq by exact Hj.
    repeat split. apply P. unfold PPO.NUM_OPS; lia.
Qed.

Lemma forward_log_prob_consistent_witness :
  (1 <= 1)%nat /\
  (forall (ctrl : PPO.PPOController) (g : rng),
     exists actions lps values g',
       PPO.forward ctrl 1 g = Ok (actions, vec lps, values, g') /\
       forall j, (j < 1 * (PPO.NUM_NODES * 3))%nat ->
         let probs := softmax (PPO.logits_at ctrl j) in
         nth j (concat actions) 0%nat = multinomial probs (draw_at g j) /\
         nth j lps 0 = ln (nth (nth j (concat actions) 0%nat) probs 0) /\
         0 < nth (nth j (concat actions) 0%nat) probs 0).
Proof.
  split; [lia|]. apply (forward_log_prob_consistent 1). lia.
Defined.

(** ** Recipe 1: the evaluation loop and the controller update *)

Section BasicLoop.
Variables Net X : Type.
Variable predict : Net -> X -> list nat -> list nat.

Lemma basic_forward_layers (ctrl : Basic.Controller) (g : rng) :
  Basic.forward ctrl Basic.NUM_LAYERS g =
  Ok (map (Basic.action_at ctrl g) (seq 0 Basic.NUM_LAYERS),
      vec (map (Basic.log_prob_at ctrl g) (seq 0 Basic.NUM_LAYERS)),
      advance Basic.NUM_LAYERS g).
Proof.
  apply basic_forward_spec. unfold Basic.NUM_LAYERS. lia.
Qed.


(** When [evaluate] returns on every architecture, the loop returns. *)
Lemma basic_sample_loop_runs (ctrl : Basic.Controller) (net : Net)
      (val_data : list (X * list nat)) :
  (forall a, exists r, evaluate predict net a val_data = Ok r) ->
  forall k g rewards cur,
  exists rs cur',
    Basic.sample_loop Net X predict k ctrl net val_data g rewards cur =
      Ok (rewards ++ rs, cur', advance (k * Basic.NUM_LAYERS) g) /\
    length rs = k /\
    forall c, (forall a, evaluate predict net a val_data = Ok c) ->
              rs = repeat c k.
Proof.
  intros Hev. induction k as [|k IH]; intros g rewards cur.
  - exists [], cur. cbn [Basic.sample_loop Nat.mul].
    rewrite advance_0, app_nil_r. repeat split.
  - cbn [Basic.sample_loop]. rewrite basic_forward_layers. cbn [bind].
    destruct (Hev (map (Basic.action_at ctrl g) (seq 0 Basic.NUM_LAYERS)))
      as [r Hr].
    rewrite Hr. cbn [bind].
    destruct (IH (advance Basic.NUM_LAYERS g) (rewards ++ [r])
                 (Some (map (Basic.action_at ctrl g) (seq 0 Basic.NUM_LAYERS),
                        vec (map (Basic.log_prob_at ctrl g)
                                 (seq 0 Basic.NUM_LAYERS)))))
      as (rs & cur' & H & Hl & Hc).
    exists (r :: rs), cur'. rewrite H, advance_advance, <- app_assoc.
    cbn [app length]. repeat split; [now rewrite Hl|].
    intros c Hcst. rewrite (Hc c Hcst). cbn [repeat]. f_equal.
    specialize (Hcst (map (Basic.action_at ctrl g) (seq 0 Basic.NUM_LAYERS))).
    congruence.
Qed.

End BasicLoop.

Lemma bdim_1_r (a : nat) : bdim a 1 = Some a.
Proof.
  unfold bdim. destruct (Nat.eqb a 1); reflexivity.
Qed.

Lemma zip_with_repeat_r (f : R -> R -> R) (m : R) (l : list R) :
  zip_with f l (repeat m (length l)) = map (fun r => f r m) l.
Proof.
  induction l as [|x l IH]; [reflexivity|]. simpl. now rewrite IH.
Qed.

Lemma expand_scalar (m : R) (n : nat) : expand (scalar m) 1 n = [repeat m n].
Proof.
  unfold expand, expand_row; simpl.
  destruct n as [|[|n]]; reflexivity.
Qed.

Lemma expand_vec (l : list R) : expand (vec l) 1 (length l) = [l].
Proof.
  unfold expand, expand_row; simpl. now rewrite Nat.eqb_refl.
Qed.


Section BasicUpdate.
Variables Net X : Type.
Variable predict : Net -> X -> list nat -> list nat.
Variable shared_step : Net -> X -> list nat -> list nat -> Net.
Variable controller_step : Basic.Controller -> tensor -> tensor -> Basic.Controller.

Lemma basic_train_shared_runs (ctrl : Basic.Controller) :
  forall train_data net g,
  exists net1,
    Basic.train_shared Net X shared_step ctrl net train_data g =
    Ok (net1, advance (length train_data * Basic.NUM_LAYERS) g).
Proof.
  induction train_data as [|[x y] rest IH]; intros net g.
  - exists net. cbn [Basic.train_shared length Nat.mul]. now rewrite advance_0.
  - cbn [Basic.train_shared]. rewrite basic_forward_layers. cbn [bind].
    destruct (IH (shared_step net x y
                   (map (Basic.action_at ctrl g) (seq 0 Basic.NUM_LAYERS)))
                 (advance Basic.NUM_LAYERS g)) as [net1 H].
    exists net1. rewrite H, advance_advance. reflexivity.
Qed.

(** With [reward] unbound, line 139 raises before anything is computed. *)
Lemma basic_update_unbound (ctrl : Basic.Controller) (rewards : list R)
      (cur : option (list nat * tensor)) :
  Basic.update_controller controller_step ctrl None rewards cur =
  Raise UnboundLocalError.
Proof. reflexivity. Qed.

Lemma basic_first_epoch (net : Net) (ctrl : Basic.Controller)
      (train_data val_data : list (X * list nat)) (e : nat) (g : rng) :
  (forall out,
     Basic.train_enas Net X predict shared_step controller_step
                      net ctrl train_data val_data (S e) g <> Ok out) /\
  (forall net1 g1 rewards cur g2,
     Basic.train_shared Net X shared_step ctrl net train_data g = Ok (net1, g1) ->
     Basic.sample_loop Net X predict 10 ctrl net1 val_data g1 [] None =
       Ok (rewards, cur, g2) ->
     Basic.train_enas Net X predict shared_step controller_step
                      net ctrl train_data val_data (S e) g =
     Raise UnboundLocalError).
Proof.
  unfold Basic.train_enas. cbn [Basic.train_enas_loop]. unfold Basic.epoch.
  split.
  - intros out.
    destruct (Basic.train_shared Net X shared_step ctrl net train_data g)
      as [[net1 g1]|e1]; cbn [bind]; [|discriminate].
    destruct (Basic.sample_loop Net X predict 10 ctrl net1 val_data g1 [] None)
      as [[[rewards cur] g2]|e2]; cbn [bind]; discriminate.
  - intros net1 g1 rewards cur g2 H1 H2. rewrite H1. cbn [bind].
    rewrite H2. reflexivity.
Qed.

End BasicUpdate.

Lemma evaluate_half (Net A : Type) (net : Net) (a : A) :
  evaluate (Inputs.predict_half Net A) net a Inputs.val_half = Ok (1 / 2).
Proof.
  unfold evaluate, Inputs.val_half, Inputs.predict_half. simpl.
  f_equal; lra.
Qed.

(** ** Recipe 1: the controller update *)

(** C1.  [train_enas] does not compute the advantage from the batch's
    mean: line 139 reads the local name [reward] on the right of its first
    assignment.  A run of one epoch or more never completes, and when the
    shared-weight phase and the ten evaluations of the first epoch succeed
    it stops with [UnboundLocalError]. *)
Theorem train_enas_reward_unbound
  (Net X : Type) (predict : Net -> X -> list nat -> list nat)
  (shared_step : Net -> X -> list nat -> list nat -> Net)
  (controller_step : Basic.Controller -> tensor -> tensor -> Basic.Controller)
  (net : Net) (ctrl : Basic.Controller)
  (train_data val_data : list (X * list nat)) (e : nat) (g : rng) :
  (forall out,
     Basic.train_enas Net X predict shared_step controller_step
                      net ctrl train_data val_data (S e) g <> Ok out) /\
  (forall net1 g1 rewards cur g2,
     Basic.train_shared Net X shared_step ctrl net train_data g = Ok (net1, g1) ->
     Basic.sample_loop Net X predict 10 ctrl net1 val_data g1 [] None =
       Ok (rewards, cur, g2) ->
     Basic.update_controller controller_step ctrl None rewards cur =
       Raise UnboundLocalError /\
     Basic.train_enas Net X predict shared_step controller_step
                      net ctrl train_data val_data (S e) g =
     Raise UnboundLocalError).
Proof.
  destruct (basic_first_epoch Net X predict shared_step controller_step
              net ctrl train_data val_data e g) as [H1 H2].
  split; [exact H1|]. intros net1 g1 rewards cur g2 Ht Hs.
  split; [reflexivity|]. exact (H2 net1 g1 rewards cur g2 Ht Hs).
Qed.

Lemma train_enas_reward_unbound_witness :
  exists rewards cur g2,
    Basic.train_shared unit unit (fun n _ _ _ => n) Inputs.basic_ctrl tt []
                       Inputs.g0 = Ok (tt, Inputs.g0) /\
    Basic.sample_loop unit unit (Inputs.predict_half unit (list nat)) 10
                      Inputs.basic_ctrl tt Inputs.val_half Inputs.g0 [] None =
      Ok (rewards, cur, g2) /\
    Basic.update_controller (fun c _ _ => c) Inputs.basic_ctrl None rewards cur =
      Raise UnboundLocalError /\
    Basic.train_enas unit unit (Inputs.predict_half unit (list nat))
                     (fun n _ _ _ => n) (fun c _ _ => c)
                     tt Inputs.basic_ctrl [] Inputs.val_half 1 Inputs.g0 =
    Raise UnboundLocalError.
Proof.
  destruct (basic_sample_loop_runs unit unit (Inputs.predict_half unit (list nat))
              Inputs.basic_ctrl tt Inputs.val_half
              (fun a => ex_intro _ (1 / 2) (evaluate_half unit (list nat) tt a))
              10%nat Inputs.g0 [] None) as (rs & cur & H & _).
  exists ([] ++ rs), cur, (advance (10 * Basic.NUM_LAYERS) Inputs.g0).
  split; [reflexivity|]. split; [exact H|].
  exact (proj2 (train_enas_reward_unbound unit unit
                  (Inputs.predict_half unit (list nat))
                  (fun n _ _ _ => n) (fun c _ _ => c) tt Inputs.basic_ctrl []
                  Inputs.val_half 0 Inputs.g0) tt Inputs.g0 _ _ _ eq_refl H).
Defined.

(** C7.  With an evaluator that gives every architecture the same reward
    [c] (for instance [1/2]), the first controller update of [train_enas]
    does not produce a zero advantage and a loss of [0.0]: the batch of ten
    equal rewards is collected, and the update raises [UnboundLocalError]. *)
Theorem train_enas_equal_rewards_raises
  (Net X : Type) (predict : Net -> X -> list nat -> list nat)
  (shared_step : Net -> X -> list nat -> list nat -> Net)
  (controller_step : Basic.Controller -> tensor -> tensor -> Basic.Controller)
  (net : Net) (ctrl : Basic.Controller)
  (train_data val_data : list (X * list nat)) (e : nat) (g : rng) (c : R)
  (Hmock : forall net' a, evaluate predict net' a val_data = Ok c) :
  exists net1 g1 cur g2,
    Basic.train_shared Net X shared_step ctrl net train_data g = Ok (net1, g1) /\
    Basic.sample_loop Net X predict 10 ctrl net1 val_data g1 [] None =
      Ok (repeat c 10, cur, g2) /\
    Basic.update_controller controller_step ctrl None (repeat c 10) cur =
      Raise UnboundLocalError /\
    Basic.train_enas Net X predict shared_step controller_step
                     net ctrl train_data val_data (S e) g =
    Raise UnboundLocalError.
Proof.
  destruct (basic_train_shared_runs Net X shared_step ctrl train_data net g)
    as [net1 Ht].
  destruct (basic_sample_loop_runs Net X predict ctrl net1 val_data
              (fun a => ex_intro _ c (Hmock net1 a)) 10%nat
              (advance (length train_data * Basic.NUM_LAYERS) g) [] None)
    as (rs & cur & Hs & _ & Hc).
  rewrite (Hc c (Hmock net1)) in Hs. cbn [app] in Hs.
  eexists net1, _, cur, _. split; [exact Ht|]. split; [exact Hs|].
  split; [reflexivity|].
  exact (proj2 (basic_first_epoch Net X predict shared_step controller_step
                  net ctrl train_data val_data e g) _ _ _ _ _ Ht Hs).
Qed.

Lemma train_enas_equal_rewards_raises_witness :
  (forall (net' : unit) (a : list nat),
     evaluate (Inputs.predict_half unit (list nat)) net' a Inputs.val_half =
     Ok (1 / 2)) /\
  exists net1 g1 cur g2,
    Basic.train_shared unit unit (fun n _ _ _ => n) Inputs.basic_ctrl tt []
                       Inputs.g0 = Ok (net1, g1) /\
    Basic.sample_loop unit unit (Inputs.predict_half unit (list nat)) 10
                      Inputs.basic_ctrl net1 Inputs.val_half g1 [] None =
      Ok (repeat (1 / 2) 10, cur, g2) /\
    Basic.update_controller (fun c _ _ => c) Inputs.basic_ctrl None
                            (repeat (1 / 2) 10) cur =
      Raise UnboundLocalError /\
    Basic.train_enas unit unit (Inputs.predict_half unit (list nat))
                     (fun n _ _ _ => n) (fun c _ _ => c)
                     tt Inputs.basic_ctrl [] Inputs.val_half 1 Inputs.g0 =
    Raise UnboundLocalError.
Proof.
  assert (Hm : forall (net' : unit) (a : list nat),
             evaluate (Inputs.predict_half unit (list nat)) net' a Inputs.val_half =
             Ok (1 / 2)).
  { intros net' a. apply evaluate_half. }
  split; [exact Hm|].
  exact (train_enas_equal_rewards_raises unit unit
           (Inputs.predict_half unit (list nat)) (fun n _ _ _ => n)
           (fun c _ _ => c) tt Inputs.basic_ctrl [] Inputs.val_half 0
           Inputs.g0 (1 / 2) Hm).
Defined.



(** ** [evaluate] on nothing *)



(** ** Recipe 3: the batch of old log-probabilities *)

Lemma cat_rest_vec (lss : list (list R)) :
  forall acc, cat_rest (vec acc) (map vec lss) = Ok (vec (acc ++ concat lss)).
Proof.
  induction lss as [|l lss IH]; intros acc.
  - simpl. now rewrite app_nil_r.
  - cbn [map cat_rest]. change (rank (vec l)) with 1%nat.
    change (rank (vec acc)) with 1%nat. cbn [Nat.eqb negb].
    unfold flat. cbn [rows vec concat]. rewrite !app_nil_r, IH.
    now rewrite <- app_assoc.
Qed.

Lemma cat_vec (lss : list (list R)) :
  lss <> [] -> cat (map vec lss) = Ok (vec (concat lss)).
Proof.
  destruct lss as [|l lss]; [congruence|]; intros _.
  cbn [map cat]. change (rank (vec l)) with 1%nat. cbv iota.
  apply cat_rest_vec.
Qed.

Lemma length_concat_const {A : Type} (m : nat) (lss : list (list A)) :
  Forall (fun l => length l = m) lss ->
  length (concat lss) = (length lss * m)%nat.
Proof.
  induction 1 as [|l lss Hl _ IH]; [reflexivity|].
  cbn [concat length]. rewrite length_app, IH, Hl. reflexivity.
Qed.

Section PPOLoop.
Variables Net X : Type.
Variable predict : Net -> X -> list (list nat) -> list nat.
Variable cells : Net -> nat.

(** What every iteration of the evaluation loop adds to the batch. *)
Lemma ppo_sample_loop_inv (ctrl : PPO.PPOController) (net : Net)
      (val_data : list (X * list nat)) :
  forall k g b b' g',
  PPO.sample_loop Net X predict cells k ctrl net val_data g b = Ok (b', g') ->
  exists lss,
    PPO.old_log_probs_list b' = PPO.old_log_probs_list b ++ map vec lss /\
    length lss = k /\
    Forall (fun l => length l = (cells net * (PPO.NUM_NODES * 3))%nat) lss /\
    length (PPO.actions_list b') = (length (PPO.actions_list b) + k)%nat /\
    length (PPO.rewards b') = (length (PPO.rewards b) + k)%nat.
Proof.
  induction k as [|k IH]; intros g b b' g' H.
  - cbn [PPO.sample_loop] in H. inversion H; subst.
    exists []. cbn [map length]. rewrite app_nil_r, !Nat.add_0_r.
    repeat split. constructor.
  - cbn [PPO.sample_loop] in H.
    destruct (cells net) as [|n] eqn:En.
    + rewrite ppo_forward_0 in H. discriminate H.
    + rewrite ppo_forward_spec in H by lia. cbn [bind] in H.
      apply bind_Ok in H. destruct H as [acc [_ H]].
      apply IH in H. destruct H as (lss & Hl & Hk & Hf & Ha & Hr).
      cbn [PPO.old_log_probs_list PPO.actions_list PPO.rewards] in *.
      eexists (_ :: lss). split.
      { rewrite Hl, <- app_assoc. reflexivity. }
      rewrite length_app in Ha, Hr. cbn [length] in *.
      split; [now rewrite Hk|]. split.
      { constructor; [|exact Hf]. now rewrite length_map, length_seq. }
      split; lia.
Qed.

(** When [evaluate] returns on every architecture and the network has a
    cell, the evaluation loop returns. *)
Lemma ppo_sample_loop_runs (ctrl : PPO.PPOController) (net : Net)
      (val_data : list (X * list nat)) :
  (1 <= cells net)%nat ->
  (forall a, exists r, evaluate predict net a val_data = Ok r) ->
  forall k g b, exists b' g',
    PPO.sample_loop Net X predict cells k ctrl net val_data g b = Ok (b', g').
Proof.
  intros Hn Hev. induction k as [|k IH]; intros g b.
  - eexists _, _. reflexivity.
  - cbn [PPO.sample_loop]. rewrite ppo_forward_spec by exact Hn. cbn [bind].
    destruct (Hev (PPO.cell_actions_from ctrl g 0 (cells net))) as [r Hr].
    rewrite Hr. cbn [bind]. apply IH.
Qed.

Lemma ppo_cat_old_log_probs (ctrl : PPO.PPOController) (net : Net)
      (val_data : list (X * list nat)) (k : nat) (g : rng) (b : PPO.batch)
      (g' : rng) :
  PPO.sample_loop Net X predict cells (S k) ctrl net val_data g
                  PPO.empty_batch = Ok (b, g') ->
  exists old,
    cat (PPO.old_log_probs_list b) = Ok (vec old) /\
    length old = (S k * (cells net * (PPO.NUM_NODES * 3)))%nat /\
    length (PPO.actions_list b) = S k.
Proof.
  intros H. apply ppo_sample_loop_inv in H.
  destruct H as (lss & Hl & Hk & Hf & Ha & _).
  cbn [PPO.empty_batch PPO.old_log_probs_list PPO.actions_list app length
       Nat.add] in *.
  exists (concat lss). rewrite Hl. split.
  - apply cat_vec. destruct lss; [discriminate Hk | congruence].
  - split; [|exact Ha].
    rewrite (length_concat_const _ _ Hf), Hk. reflexivity.
Qed.

End PPOLoop.

(** C9.  In the controller phase of [train_enas_ppo], the old
    log-probabilities are ten trajectories of [cells * NUM_NODES * 3]
    entries each, while [ppo_update] calls the controller with
    [len(actions) = 10] cells and gets [10 * NUM_NODES * 3] new ones.  When
    the network does not have exactly one cell the two lengths differ and
    [new_log_probs - old_log_probs] raises. *)
Theorem ppo_log_probs_length_mismatch
  (Net X : Type) (predict : Net -> X -> list (list nat) -> list nat)
  (cells : Net -> nat) (ctrl : PPO.PPOController) (net : Net)
  (val_data : list (X * list nat)) (g : rng) (b : PPO.batch) (g1 : rng)
  (old_log_probs : tensor)
  (Hloop : PPO.sample_loop Net X predict cells 10 ctrl net val_data g
                           PPO.empty_batch = Ok (b, g1))
  (Hcat : cat (PPO.old_log_probs_list b) = Ok old_log_probs) :
  shape old_log_probs = [(10 * (cells net * PPO.NUM_NODES * 3))%nat] /\
  length (PPO.actions_list b) = 10%nat /\
  exists new_actions new_log_probs new_values g2,
    PPO.forward ctrl (length (PPO.actions_list b)) g1 =
      Ok (new_actions, new_log_probs, new_values, g2) /\
    shape new_log_probs = [(10 * PPO.NUM_NODES * 3)%nat] /\
    (cells net <> 1%nat ->
     shape new_log_probs <> shape old_log_probs /\
     tsub new_log_probs old_log_probs = Raise RuntimeError /\
     forall old_values rewards epsilon,
       PPO.ppo_update ctrl old_log_probs old_values rewards
                      (PPO.actions_list b) epsilon g1 = Raise RuntimeError).
Proof.
  destruct (ppo_cat_old_log_probs Net X predict cells ctrl net val_data
              9 g b g1 Hloop) as (old & Hc & Hlen & Hact).
  rewrite Hc in Hcat. inversion Hcat; subst old_log_probs. clear Hcat.
  split; [rewrite shape_vec, Hlen; f_equal; lia|]. split; [exact Hact|].
  rewrite Hact. eexists _, _, _, _.
  split; [apply ppo_forward_spec; lia|].
  split; [now rewrite shape_vec, length_map, length_seq, Nat.mul_assoc|].
  intros Hne.
  assert (Hmis : tsub (vec (map (PPO.log_prob_at ctrl g1)
                                (seq 0 (10 * (PPO.NUM_NODES * 3)))))
                      (vec old) = Raise RuntimeError).
  { apply tbinop_vec_mismatch;
      rewrite ?length_map, ?length_seq, ?Hlen; unfold PPO.NUM_NODES; lia. }
  split; [|split].
  - rewrite !shape_vec, length_map, length_seq, Hlen.
    unfold PPO.NUM_NODES. intros E. inversion E. lia.
  - exact Hmis.
  - intros old_values rewards epsilon. unfold PPO.ppo_update.
    rewrite Hact, ppo_forward_spec by lia. cbn [bind].
    rewrite Hmis. reflexivity.
Qed.

Lemma ppo_log_probs_length_mismatch_witness :
  exists b g1 old_log_probs,
    PPO.sample_loop nat unit (Inputs.predict_half nat (list (list nat)))
                    Inputs.cells_of 10 Inputs.ppo_ctrl 2%nat Inputs.val_half
                    Inputs.g0 PPO.empty_batch = Ok (b, g1) /\
    cat (PPO.old_log_probs_list b) = Ok old_log_probs /\
    Inputs.cells_of 2 <> 1%nat /\
    shape old_log_probs = [240%nat] /\
    exists new_actions new_log_probs new_values g2,
      PPO.forward Inputs.ppo_ctrl (length (PPO.actions_list b)) g1 =
        Ok (new_actions, new_log_probs, new_values, g2) /\
      shape new_log_probs = [120%nat] /\
      tsub new_log_probs old_log_probs = Raise RuntimeError.
Proof.
  assert (Hn : (1 <= Inputs.cells_of 2)%nat) by (unfold Inputs.cells_of; lia).
  assert (Hne : Inputs.cells_of 2 <> 1%nat) by (unfold Inputs.cells_of; lia).
  destruct (ppo_sample_loop_runs nat unit
              (Inputs.predict_half nat (list (list nat))) Inputs.cells_of
              Inputs.ppo_ctrl 2%nat Inputs.val_half Hn
              (fun a => ex_intro _ (1 / 2)
                          (evaluate_half nat (list (list nat)) 2%nat a))
              10%nat Inputs.g0 PPO.empty_batch) as (b & g1 & Hloop).
  destruct (ppo_cat_old_log_probs nat unit
              (Inputs.predict_half nat (list (list nat))) Inputs.cells_of
              Inputs.ppo_ctrl 2%nat Inputs.val_half 9 Inputs.g0 b g1 Hloop)
    as (old & Hcat & _).
  exists b, g1, (vec old). split; [exact Hloop|]. split; [exact Hcat|].
  split; [exact Hne|].
  destruct (ppo_log_probs_length_mismatch nat unit
              (Inputs.predict_half nat (list (list nat))) Inputs.cells_of
              Inputs.ppo_ctrl 2%nat Inputs.val_half Inputs.g0 b g1 (vec old)
              Hloop Hcat)
    as (Hs & _ & na & nl & nv & g2 & Hf & Hsn & Hm).
  split; [exact Hs|]. exists na, nl, nv, g2.
  split; [exact Hf|]. split; [exact Hsn|].
  exact (proj1 (proj2 (Hm Hne))).
Defined.

(** ** Recipe 3: what [ppo_update] scores *)

Lemma ppo_ctrl_probs (j : nat) :
  softmax (PPO.logits_at Inputs.ppo_ctrl j) = [1/3; 1/6; 1/6; 1/6; 1/6].
Proof.
  change (PPO.logits_at Inputs.ppo_ctrl j) with [ln 2; 0; 0; 0; 0].
  unfold softmax. cbn [map Rsum fold_right].
  rewrite exp_ln by lra. rewrite exp_0.
  replace (2 + (1 + (1 + (1 + (1 + 0))))) with 6 by lra.
  replace (2 / 6) with (1 / 3) by lra. reflexivity.
Qed.

Lemma ppo_ctrl_action_g0 : PPO.action_at Inputs.ppo_ctrl Inputs.g0 0 = 0%nat.
Proof.
  unfold PPO.action_at. rewrite ppo_ctrl_probs.
  change (draw_at Inputs.g0 0) with 0.
  unfold multinomial. rewrite multinomial_from_cons2.
  destruct (Rlt_dec 0 (1 / 3)); [reflexivity | lra].
Qed.

Lemma ppo_ctrl_action_g1 : PPO.action_at Inputs.ppo_ctrl Inputs.g1 0 = 1%nat.
Proof.
  unfold PPO.action_at. rewrite ppo_ctrl_probs.
  change (draw_at Inputs.g1 0) with (2 / 5).
  unfold multinomial. rewrite multinomial_from_cons2.
  destruct (Rlt_dec (2 / 5) (1 / 3)); [lra|].
  rewrite multinomial_from_cons2.
  destruct (Rlt_dec (2 / 5 - 1 / 3) (1 / 6)); [reflexivity | lra].
Qed.

(** C2.  [ppo_update] does not re-score the sampled actions.  Its result
    is the same when every architecture of [actions] is replaced by an
    empty one (only [len(actions)] is used); the new log-probabilities are
    those of the actions drawn afresh inside the update.  For the
    controller [ppo_ctrl], whose parameters never change here, the
    sampled first action is [0] (log-probability [ln (1/3)] under the
    current policy) while the update draws action [1] and uses
    [ln (1/6)]: a ratio of [1/2] where re-scoring gives [1]. *)
Theorem ppo_update_scores_fresh_actions :
  (forall ctrl old_log_probs old_values rewards actions epsilon g,
     PPO.ppo_update ctrl old_log_probs old_values rewards actions epsilon g =
     PPO.ppo_update ctrl old_log_probs old_values rewards
                    (map (fun _ => []) actions) epsilon g) /\
  (forall ctrl (a : list (list nat)) (actions : list (list (list nat))) g,
     exists fresh new_values g',
       PPO.forward ctrl (length (a :: actions)) g =
         Ok (fresh,
             vec (map (PPO.log_prob_at ctrl g)
                      (seq 0 (length (a :: actions) * (PPO.NUM_NODES * 3)))),
             new_values, g') /\
       concat fresh =
         map (PPO.action_at ctrl g)
             (seq 0 (length (a :: actions) * (PPO.NUM_NODES * 3)))) /\
  PPO.action_at Inputs.ppo_ctrl Inputs.g0 0 = 0%nat /\
  PPO.action_at Inputs.ppo_ctrl Inputs.g1 0 = 1%nat /\
  PPO.log_prob_at Inputs.ppo_ctrl Inputs.g1 0 = ln (1 / 6) /\
  ln (nth (PPO.action_at Inputs.ppo_ctrl Inputs.g0 0)
          (softmax (PPO.logits_at Inputs.ppo_ctrl 0)) 0) = ln (1 / 3) /\
  ln (1 / 6) <> ln (1 / 3) /\
  exp (PPO.log_prob_at Inputs.ppo_ctrl Inputs.g1 0 -
       PPO.log_prob_at Inputs.ppo_ctrl Inputs.g0 0) = 1 / 2.
Proof.
  assert (L1 : PPO.log_prob_at Inputs.ppo_ctrl Inputs.g1 0 = ln (1 / 6)).
  { unfold PPO.log_prob_at.
    now rewrite ppo_ctrl_action_g1, ppo_ctrl_probs. }
  assert (L0 : PPO.log_prob_at Inputs.ppo_ctrl Inputs.g0 0 = ln (1 / 3)).
  { unfold PPO.log_prob_at.
    now rewrite ppo_ctrl_action_g0, ppo_ctrl_probs. }
  split; [|split].
  - intros. unfold PPO.ppo_update. now rewrite length_map.
  - intros ctrl a actions g. eexists _, _, _. split.
    + apply ppo_forward_spec. cbn [length]. lia.
    + apply ppo_cell_actions_concat.
  - split; [exact ppo_ctrl_action_g0|]. split; [exact ppo_ctrl_action_g1|].
    split; [exact L1|]. split; [exact L0|]. split.
    + intros E. apply ln_inv in E; lra.
    + rewrite L1, L0. unfold Rminus. rewrite exp_plus, exp_Ropp.
      rewrite !exp_ln by lra. lra.
Qed.

(** ** Recipe 8: value distributions *)

Lemma positiveb_exp (x : R) : Uncertainty.positiveb (exp x) = true.
Proof.
  unfold Uncertainty.positiveb.
  destruct (Rlt_dec 0 (exp x)) as [_|H]; [reflexivity|].
  exfalso. apply H, exp_pos.
Qed.

Lemma mkNormal_exp (m raw : R) :
  Uncertainty.mkNormal (t11 m) (tmap exp (t11 raw)) =
  Ok {| Uncertainty.loc := t11 m; Uncertainty.scale := t11 (exp raw) |}.
Proof.
  unfold Uncertainty.mkNormal.
  change (tbinop (fun a _ => a) (t11 m) (tmap exp (t11 raw)))
    with (Ok (t11 m)).
  change (tbinop (fun _ b => b) (t11 m) (tmap exp (t11 raw)))
    with (Ok (t11 (exp raw))).
  cbn [bind]. unfold Uncertainty.all_positive, t11. cbn [rows forallb].
  now rewrite positiveb_exp.
Qed.

Lemma mkNormal_nonpositive (m s : R) :
  s <= 0 -> Uncertainty.mkNormal (t11 m) (t11 s) = Raise ValueError.
Proof.
  intros Hs. unfold Uncertainty.mkNormal.
  change (tbinop (fun a _ => a) (t11 m) (t11 s)) with (Ok (t11 m)).
  change (tbinop (fun _ b => b) (t11 m) (t11 s)) with (Ok (t11 s)).
  cbn [bind]. unfold Uncertainty.all_positive, t11. cbn [rows forallb].
  unfold Uncertainty.positiveb. destruct (Rlt_dec 0 s); [lra | reflexivity].
Qed.

Lemma log_prob_formula (mu sigma r : R) :
  Uncertainty.log_prob
    {| Uncertainty.loc := t11 mu; Uncertainty.scale := t11 sigma |} (scalar r) =
  Ok (t11 (- ((r - mu) * (r - mu)) / (2 * (sigma * sigma)) - ln sigma
           - ln (sqrt (2 * PI)))).
Proof. reflexivity. Qed.

Lemma sqrt_2PI_pos : 0 < sqrt (2 * PI).
Proof.
  apply sqrt_lt_R0. pose proof PI_RGT_0. lra.
Qed.

(** The formula of torch is the logarithm of the Gaussian density. *)
Lemma ln_gauss_pdf (mu sigma r : R) :
  0 < sigma ->
  ln (Uncertainty.gauss_pdf mu sigma r) =
  - ((r - mu) * (r - mu)) / (2 * (sigma * sigma)) - ln sigma
  - ln (sqrt (2 * PI)).
Proof.
  intros Hs. unfold Uncertainty.gauss_pdf.
  pose proof sqrt_2PI_pos as Hq.
  assert (Hp : 0 < sigma * sqrt (2 * PI)) by now apply Rmult_lt_0_compat.
  rewrite ln_mult; [|now apply Rinv_0_lt_compat | apply exp_pos].
  rewrite ln_Rinv by exact Hp. rewrite ln_mult by assumption.
  rewrite ln_exp. lra.
Qed.

Lemma log_prob_gauss (mu sigma r : R) :
  0 < sigma ->
  Uncertainty.log_prob
    {| Uncertainty.loc := t11 mu; Uncertainty.scale := t11 sigma |} (scalar r) =
  Ok (t11 (ln (Uncertainty.gauss_pdf mu sigma r))).
Proof.
  intros Hs. rewrite log_prob_formula. now rewrite ln_gauss_pdf.
Qed.

(** ** Recipe 8: the sampler in closed form *)

Lemma unc_node_loop_spec (ctrl : Uncertainty.UncertaintyAwareController)
      (g : rng) :
  forall k j lps vds cell_actions,
  Uncertainty.node_loop ctrl k
    {| Uncertainty.st_hc := Uncertainty.state_at ctrl j;
       Uncertainty.st_g := advance j g;
       Uncertainty.st_log_probs := lps;
       Uncertainty.st_value_dists := vds |} cell_actions =
  Ok (cell_actions ++ map (Uncertainty.action_at ctrl g) (seq j k),
      {| Uncertainty.st_hc := Uncertainty.state_at ctrl (j + k);
         Uncertainty.st_g := advance (j + k) g;
         Uncertainty.st_log_probs :=
           lps ++ map (Uncertainty.log_prob_at ctrl g) (seq j k);
         Uncertainty.st_value_dists :=
           vds ++ map (Uncertainty.dist_at ctrl) (seq j k) |}).
Proof.
  induction k as [|k IH]; intros j lps vds cell_actions.
  - simpl. now rewrite !app_nil_r, Nat.add_0_r.
  - cbn [Uncertainty.node_loop Uncertainty.st_hc Uncertainty.st_g
         Uncertainty.st_log_probs Uncertainty.st_value_dists].
    rewrite draw_advance.
    change (Uncertainty.lstm ctrl (zeros Uncertainty.NUM_OPS)
                             (Uncertainty.state_at ctrl j))
      with (Uncertainty.state_at ctrl (S j)).
    rewrite mkNormal_exp. cbn [bind].
    change {| Uncertainty.loc :=
                t11 (Uncertainty.critic_mean ctrl
                       (fst (Uncertainty.state_at ctrl (S j))));
              Uncertainty.scale :=
                t11 (exp (Uncertainty.critic_std ctrl
                            (fst (Uncertainty.state_at ctrl (S j))))) |}
      with (Uncertainty.dist_at ctrl j).
    rewrite IH. cbn [seq map].
    rewrite <- !app_assoc. cbn [app].
    now rewrite Nat.add_succ_r.
Qed.

Lemma unc_cell_loop_spec (ctrl : Uncertainty.UncertaintyAwareController)
      (g : rng) :
  forall n j lps vds actions,
  Uncertainty.cell_loop ctrl n
    {| Uncertainty.st_hc := Uncertainty.state_at ctrl j;
       Uncertainty.st_g := advance j g;
       Uncertainty.st_log_probs := lps;
       Uncertainty.st_value_dists := vds |} actions =
  Ok (actions ++ Uncertainty.cell_actions_from ctrl g j n,
      {| Uncertainty.st_hc :=
           Uncertainty.state_at ctrl (j + n * (Uncertainty.NUM_NODES * 3));
         Uncertainty.st_g := advance (j + n * (Uncertainty.NUM_NODES * 3)) g;
         Uncertainty.st_log_probs :=
           lps ++ map (Uncertainty.log_prob_at ctrl g)
                      (seq j (n * (Uncertainty.NUM_NODES * 3)));
         Uncertainty.st_value_dists :=
           vds ++ map (Uncertainty.dist_at ctrl)
                      (seq j (n * (Uncertainty.NUM_NODES * 3))) |}).
Proof.
  set (K := (Uncertainty.NUM_NODES * 3)%nat).
  induction n as [|n IH]; intros j lps vds actions.
  - simpl. now rewrite !app_nil_r, Nat.add_0_r.
  - cbn [Uncertainty.cell_loop Uncertainty.cell_actions_from]. fold K.
    rewrite unc_node_loop_spec. cbn [bind app]. rewrite IH.
    rewrite <- !app_assoc. cbn [app].
    replace (S n * K)%nat with (K + n * K)%nat by lia.
    rewrite !seq_app, !map_app, Nat.add_assoc. reflexivity.
Qed.

Lemma unc_forward_spec (ctrl : Uncertainty.UncertaintyAwareController)
      (g : rng) (n : nat) :
  (1 <= n)%nat ->
  Uncertainty.forward ctrl n g =
  Ok (Uncertainty.cell_actions_from ctrl g 0 n,
      vec (map (Uncertainty.log_prob_at ctrl g)
               (seq 0 (n * (Uncertainty.NUM_NODES * 3)))),
      map (Uncertainty.dist_at ctrl) (seq 0 (n * (Uncertainty.NUM_NODES * 3))),
      advance (n * (Uncertainty.NUM_NODES * 3)) g).
Proof.
  intros Hn. unfold Uncertainty.forward.
  pose proof (unc_cell_loop_spec ctrl g n 0 [] [] []) as H.
  rewrite advance_0 in H.
  change (Uncertainty.state_at ctrl 0)
    with (zeros (Uncertainty.hidden_size ctrl),
          zeros (Uncertainty.hidden_size ctrl)) in H.
  rewrite H.
  cbn [bind app Nat.add Uncertainty.st_log_probs Uncertainty.st_value_dists
       Uncertainty.st_g].
  rewrite stack_vec; [reflexivity|].
  destruct n; [lia|]. simpl. congruence.
Qed.



(** ** Recipe 8: the loss of the controller update *)

Lemma bdim_refl (a : nat) : bdim a a = Some a.
Proof. unfold bdim. now rewrite Nat.eqb_refl. Qed.

Lemma bdim_1_l (a : nat) : bdim 1 a = Some a.
Proof.
  unfold bdim. destruct a as [|[|a]]; reflexivity.
Qed.

Lemma expand_11 (k : nat) (m : R) (n : nat) :
  expand (mkT k 1 1 [[m]]) 1 n = [repeat m n].
Proof.
  unfold expand, expand_row; simpl.
  destruct n as [|[|n]]; reflexivity.
Qed.

Lemma expand_row_tensor (k L : nat) (row : list R) :
  expand (mkT k 1 L [row]) 1 L = [row].
Proof.
  unfold expand, expand_row; simpl. now rewrite Nat.eqb_refl.
Qed.

Lemma zip_with_repeat_l (f : R -> R -> R) (m : R) (l : list R) :
  zip_with f (repeat m (length l)) l = map (fun r => f m r) l.
Proof.
  induction l as [|x l IH]; [reflexivity|]. simpl. now rewrite IH.
Qed.

Lemma zip_with_length (f : R -> R -> R) (a : list R) :
  forall b, length a = length b -> length (zip_with f a b) = length a.
Proof.
  induction a as [|x a IH]; intros [|y b] H; simpl in *; try discriminate;
    [reflexivity|]. f_equal. apply IH. now injection H.
Qed.

Lemma Rsum_zip_minus (a : list R) :
  forall b, length a = length b ->
  Rsum (zip_with Rminus a b) = Rsum a - Rsum b.
Proof.
  induction a as [|x a IH]; intros [|y b] H; simpl in *; try discriminate.
  - lra.
  - rewrite IH by now injection H. lra.
Qed.

Lemma Rsum_cons (x : R) (l : list R) : Rsum (x :: l) = x + Rsum l.
Proof. reflexivity. Qed.

Lemma Rsum_map_opp (f : R -> R) (l : list R) :
  Rsum (map (fun x => - f x) l) = - Rsum (map f l).
Proof.
  induction l as [|x l IH]; simpl; [lra|]. rewrite IH. lra.
Qed.

(** [lp * advantage] for [lp] of shape [(L,)] and [advantage] of shape
    [(1, 1)]: a tensor of shape [(1, L)]. *)
Lemma tmul_vec_11 (l : list R) (m : R) :
  tmul (vec l) (mkT 2 1 1 [[m]]) =
  Ok (mkT 2 1 (length l) [map (fun x => x * m) l]).
Proof.
  unfold tmul, tbinop. cbn [nrows ncols rank vec].
  change (bdim 1 1) with (Some 1%nat). rewrite (bdim_1_r (length l)).
  cbv iota beta. change (mkT 1 1 (length l) [l]) with (vec l).
  rewrite expand_vec, expand_11. cbn [zip_with Nat.max].
  now rewrite zip_with_repeat_r.
Qed.

Lemma tsub_row_row (k L : nat) (a b : list R) :
  tsub (mkT k 1 L [a]) (mkT 2 1 L [b]) =
  Ok (mkT (Nat.max k 2) 1 L [zip_with Rminus a b]).
Proof.
  unfold tsub, tbinop. cbn [nrows ncols rank].
  change (bdim 1 1) with (Some 1%nat). rewrite bdim_refl. cbv iota beta.
  now rewrite !expand_row_tensor.
Qed.

Lemma tsub_scalar_row (z : R) (L : nat) (b : list R) :
  tsub (scalar z) (mkT 2 1 L [b]) =
  Ok (mkT 2 1 L [zip_with Rminus (repeat z L) b]).
Proof.
  unfold tsub, tbinop. cbn [nrows ncols rank scalar].
  change (bdim 1 1) with (Some 1%nat). rewrite bdim_1_l. cbv iota beta.
  change (mkT 0 1 1 [[z]]) with (scalar z).
  now rewrite expand_scalar, expand_row_tensor.
Qed.

Lemma tmean_row (k L : nat) (row : list R) :
  tmean (mkT k 1 L [row]) = Rsum row / INR L.
Proof.
  unfold tmean, tsum, flat, numel. cbn [rows nrows ncols concat].
  now rewrite app_nil_r, Nat.mul_1_l.
Qed.

Section UncertaintyLoss.
Variable L : nat.

Lemma zip3_samples (batch : list Uncertainty.sample) :
  Uncertainty.zip3 (map Uncertainty.s_reward batch)
                   (map (fun a => vec (Uncertainty.s_log_probs a)) batch)
                   (map Uncertainty.s_dists batch) =
  map Uncertainty.s_triple batch.
Proof.
  induction batch as [|a batch IH]; [reflexivity|].
  cbn [map Uncertainty.zip3]. now rewrite IH.
Qed.

(** Every further iteration subtracts the sample's contributions from
    the two accumulated tensors. *)
Lemma unc_loss_loop_acc :
  forall (batch : list Uncertainty.sample) (rowA : list R) (cacc : R),
  length rowA = L ->
  Forall (fun a => length (Uncertainty.s_log_probs a) = L) batch ->
  Forall (fun a => 0 < Uncertainty.s_std a) batch ->
  exists rowA' c',
    Uncertainty.loss_loop (map Uncertainty.s_triple batch)
      (Uncertainty.PyTensor (mkT 2 1 L [rowA]))
      (Uncertainty.PyTensor (t11 cacc)) =
    Ok (Uncertainty.PyTensor (mkT 2 1 L [rowA']),
        Uncertainty.PyTensor (t11 c')) /\
    length rowA' = L /\
    Rsum rowA' =
      Rsum rowA + Rsum (map (fun a => Rsum (Uncertainty.s_actor a)) batch) /\
    c' = cacc + Rsum (map Uncertainty.s_critic batch).
Proof.
  induction batch as [|a batch IH]; intros rowA cacc HA Hlen Hstd.
  - exists rowA, cacc. cbn [map Uncertainty.loss_loop Rsum fold_right].
    repeat split; [exact HA | lra | lra].
  - inversion Hlen as [|? ? Ha Hlen']; subst.
    inversion Hstd as [|? ? Hs Hstd']; subst.
    cbn [map Uncertainty.loss_loop Uncertainty.s_triple Uncertainty.s_dists].
    cbn [Uncertainty.loc].
    change (tsub (scalar (Uncertainty.s_reward a)) (t11 (Uncertainty.s_mean a)))
      with (Ok (mkT 2 1 1 [[Uncertainty.s_advantage a]])).
    cbn [bind]. rewrite tmul_vec_11, Ha. cbn [bind Uncertainty.pysub].
    rewrite tsub_row_row. cbn [bind Nat.max].
    rewrite log_prob_gauss by exact Hs. cbn [bind].
    change (tsub (t11 cacc)
              (t11 (ln (Uncertainty.gauss_pdf (Uncertainty.s_mean a)
                          (Uncertainty.s_std a) (Uncertainty.s_reward a)))))
      with (Ok (t11 (cacc - ln (Uncertainty.gauss_pdf (Uncertainty.s_mean a)
                          (Uncertainty.s_std a) (Uncertainty.s_reward a))))).
    cbn [bind].
    set (row := map (fun x => x * Uncertainty.s_advantage a)
                    (Uncertainty.s_log_probs a)).
    assert (Hrow : length rowA = length row).
    { unfold row. now rewrite length_map, Ha. }
    destruct (IH (zip_with Rminus rowA row)
                 (cacc - ln (Uncertainty.gauss_pdf (Uncertainty.s_mean a)
                          (Uncertainty.s_std a) (Uncertainty.s_reward a))))
      as (rowA' & c' & Hrun & Hl' & Hsum & Hc); try assumption.
    { now rewrite zip_with_length. }
    exists rowA', c'. split; [exact Hrun|]. split; [exact Hl'|].
    cbn [map]. rewrite !Rsum_cons.
    rewrite Hsum, Hc, Rsum_zip_minus by exact Hrow.
    unfold Uncertainty.s_actor, Uncertainty.s_critic, row.
    rewrite (Rsum_map_opp (fun lp => lp * Uncertainty.s_advantage a)).
    split; lra.
Qed.

End UncertaintyLoss.

Lemma Rsum_repeat_0 (n : nat) : Rsum (repeat 0 n) = 0.
Proof.
  induction n as [|n IH]; [reflexivity|].
  cbn [repeat]. rewrite Rsum_cons, IH. lra.
Qed.

(** The loss of lines 150-157 on a batch of at least one sample, each with
    [L] log-probabilities and a positive standard deviation. *)
Lemma unc_controller_loss_formula (L : nat) (a0 : Uncertainty.sample)
      (rest : list Uncertainty.sample) :
  Forall (fun a => length (Uncertainty.s_log_probs a) = L) (a0 :: rest) ->
  Forall (fun a => 0 < Uncertainty.s_std a) (a0 :: rest) ->
  Uncertainty.controller_loss
    (map Uncertainty.s_reward (a0 :: rest))
    (map (fun a => vec (Uncertainty.s_log_probs a)) (a0 :: rest))
    (map Uncertainty.s_dists (a0 :: rest)) =
  Ok (Rsum (map (fun a => Rsum (Uncertainty.s_actor a)) (a0 :: rest)) / INR L
      + 0.5 * Rsum (map Uncertainty.s_critic (a0 :: rest))).
Proof.
  intros Hlen Hstd.
  inversion Hlen as [|? ? Ha Hlen']; subst.
  inversion Hstd as [|? ? Hs Hstd']; subst.
  unfold Uncertainty.controller_loss. rewrite zip3_samples.
  cbn [map Uncertainty.loss_loop Uncertainty.s_triple Uncertainty.s_dists
       Uncertainty.loc].
  change (tsub (scalar (Uncertainty.s_reward a0)) (t11 (Uncertainty.s_mean a0)))
    with (Ok (mkT 2 1 1 [[Uncertainty.s_advantage a0]])).
  cbn [bind]. rewrite tmul_vec_11. cbn [bind Uncertainty.pysub].
  rewrite tsub_scalar_row. cbn [bind].
  rewrite log_prob_gauss by exact Hs. cbn [bind].
  set (x := ln (Uncertainty.gauss_pdf (Uncertainty.s_mean a0)
                  (Uncertainty.s_std a0) (Uncertainty.s_reward a0))).
  change (tsub (scalar (IZR 0)) (t11 x)) with (Ok (t11 (0 - x))).
  cbn [bind].
  set (L := length (Uncertainty.s_log_probs a0)) in *.
  set (row := map (fun y => y * Uncertainty.s_advantage a0)
                  (Uncertainty.s_log_probs a0)).
  assert (Hrow : length (repeat (IZR 0) L) = length row).
  { unfold row, L. now rewrite repeat_length, length_map. }
  destruct (unc_loss_loop_acc L rest (zip_with Rminus (repeat (IZR 0) L) row)
              (0 - x)) as (rowA' & c' & Hrun & Hl' & Hsum & Hc);
    try assumption.
  { rewrite zip_with_length by exact Hrow. apply repeat_length. }
  rewrite Hrun. cbn [bind Uncertainty.pymean].
  rewrite tmean_row. unfold t11. rewrite tmean_row.
  rewrite Hsum, Hc, Rsum_zip_minus by exact Hrow.
  rewrite Rsum_repeat_0. cbn [map]. rewrite !Rsum_cons.
  assert (E1 : Rsum (Uncertainty.s_actor a0) = - Rsum row).
  { unfold Uncertainty.s_actor, row.
    apply (Rsum_map_opp (fun lp => lp * Uncertainty.s_advantage a0)). }
  assert (E2 : Uncertainty.s_critic a0 = - x) by reflexivity.
  rewrite E1, E2. change (INR 1) with 1. change (Rsum []) with 0.
  f_equal. f_equal; [f_equal; lra | lra].
Qed.

Section UncertaintyLoop.
Variables Net X : Type.
Variable predict : Net -> X -> list (list nat) -> list nat.
Variable cells : Net -> nat.

(** The evaluation loop returns when [evaluate] does and the network has
    a cell; what it collects is a batch of samples. *)
Lemma unc_sample_loop_runs (ctrl : Uncertainty.UncertaintyAwareController)
      (net : Net) (val_data : list (X * list nat)) :
  (1 <= cells net)%nat ->
  (forall a, exists r, evaluate predict net a val_data = Ok r) ->
  forall k g rewards lps vds,
  exists batch g',
    Uncertainty.sample_loop Net X predict cells k ctrl net val_data g
                            rewards lps vds =
    Ok (rewards ++ map Uncertainty.s_reward batch,
        lps ++ map (fun a => vec (Uncertainty.s_log_probs a)) batch,
        vds ++ map Uncertainty.s_dists batch, g') /\
    length batch = k /\
    Forall (fun a => length (Uncertainty.s_log_probs a) =
                     (cells net * (Uncertainty.NUM_NODES * 3))%nat) batch /\
    Forall (fun a => 0 < Uncertainty.s_std a) batch.
Proof.
  intros Hn Hev. induction k as [|k IH]; intros g rewards lps vds.
  - exists [], g. cbn [Uncertainty.sample_loop map length].
    rewrite !app_nil_r. repeat split; constructor.
  - cbn [Uncertainty.sample_loop].
    rewrite unc_forward_spec by exact Hn. cbn [bind].
    destruct (Hev (Uncertainty.cell_actions_from ctrl g 0 (cells net)))
      as [r Hr].
    rewrite Hr. cbn [bind].
    destruct (cells net * (Uncertainty.NUM_NODES * 3))%nat as [|m] eqn:Em.
    { unfold Uncertainty.NUM_NODES in Em. lia. }
    set (a := {| Uncertainty.s_reward := r;
                 Uncertainty.s_log_probs :=
                   map (Uncertainty.log_prob_at ctrl g) (seq 0 (S m));
                 Uncertainty.s_mean := Uncertainty.mean_at ctrl 0;
                 Uncertainty.s_std := exp (Uncertainty.raw_std_at ctrl 0);
                 Uncertainty.s_rest :=
                   map (Uncertainty.dist_at ctrl) (seq 1 m) |}).
    change (map (Uncertainty.dist_at ctrl) (seq 0 (S m)))
      with (Uncertainty.s_dists a).
    change (vec (map (Uncertainty.log_prob_at ctrl g) (seq 0 (S m))))
      with (vec (Uncertainty.s_log_probs a)).
    destruct (IH (advance (S m) g) (rewards ++ [r])
                 (lps ++ [vec (Uncertainty.s_log_probs a)])
                 (vds ++ [Uncertainty.s_dists a]))
      as (batch & g' & Hrun & Hk & Hl & Hs).
    exists (a :: batch), g'. rewrite Hrun, <- !app_assoc. cbn [app map length].
    split; [reflexivity|]. split; [now rewrite Hk|]. split.
    + constructor; [|exact Hl]. cbn [Uncertainty.s_log_probs a].
      now rewrite length_map, length_seq.
    + constructor; [|exact Hs]. apply exp_pos.
Qed.

End UncertaintyLoop.

(** C3.  The controller phase of [train_uncertainty_aware_enas], for a
    network with at least one cell and an evaluator that returns: ten
    samples are collected, each with [cells * NUM_NODES * 3]
    log-probabilities and a value distribution of positive standard
    deviation, and the loss is the mean over the decision steps of the
    summed actor contributions [- log_prob * (reward - mean)], plus one
    half of the summed critic contributions [- ln (gauss_pdf mean std
    reward)]. *)
Theorem uncertainty_update_loss
  (Net X : Type) (predict : Net -> X -> list (list nat) -> list nat)
  (cells : Net -> nat)
  (step : Uncertainty.UncertaintyAwareController -> list R ->
          list tensor -> list (list Uncertainty.Normal) ->
          Uncertainty.UncertaintyAwareController)
  (net : Net) (ctrl : Uncertainty.UncertaintyAwareController)
  (val_data : list (X * list nat)) (g : rng)
  (Hcells : (1 <= cells net)%nat)
  (Heval : forall a, exists r, evaluate predict net a val_data = Ok r) :
  exists batch g',
    length batch = 10%nat /\
    Forall (fun a => length (Uncertainty.s_log_probs a) =
                     (cells net * (Uncertainty.NUM_NODES * 3))%nat) batch /\
    Forall (fun a => 0 < Uncertainty.s_std a) batch /\
    Uncertainty.sample_loop Net X predict cells 10 ctrl net val_data g
                            [] [] [] =
    Ok (map Uncertainty.s_reward batch,
        map (fun a => vec (Uncertainty.s_log_probs a)) batch,
        map Uncertainty.s_dists batch, g') /\
    Uncertainty.controller_phase Net X predict cells step net ctrl val_data g =
    Ok (step ctrl (map Uncertainty.s_reward batch)
             (map (fun a => vec (Uncertainty.s_log_probs a)) batch)
             (map Uncertainty.s_dists batch),
        Rsum (map (fun a => Rsum (Uncertainty.s_actor a)) batch)
          / INR (cells net * (Uncertainty.NUM_NODES * 3))
        + 0.5 * Rsum (map Uncertainty.s_critic batch),
        g').
Proof.
  destruct (unc_sample_loop_runs Net X predict cells ctrl net val_data
              Hcells Heval 10%nat g [] [] [])
    as (batch & g' & Hrun & Hk & Hl & Hs).
  exists batch, g'. split; [exact Hk|]. split; [exact Hl|].
  split; [exact Hs|]. split; [exact Hrun|].
  unfold Uncertainty.controller_phase. rewrite Hrun. cbn [app bind].
  destruct batch as [|a0 rest]; [discriminate Hk|].
  rewrite <- (map_map Uncertainty.s_log_probs vec).
  rewrite cat_vec by discriminate.
  cbn [bind]. rewrite (map_map Uncertainty.s_log_probs vec).
  rewrite (unc_controller_loss_formula _ a0 rest Hl Hs).
  reflexivity.
Qed.

Lemma uncertainty_update_loss_witness :
  (1 <= Inputs.cells_of 1)%nat /\
  (forall a, exists r,
     evaluate (Inputs.predict_half nat (list (list nat))) 1%nat a
              Inputs.val_half = Ok r) /\
  exists batch g',
    length batch = 10%nat /\
    Forall (fun a => length (Uncertainty.s_log_probs a) =
                     (Inputs.cells_of 1 * (Uncertainty.NUM_NODES * 3))%nat)
           batch /\
    Forall (fun a => 0 < Uncertainty.s_std a) batch /\
    Uncertainty.sample_loop nat unit
      (Inputs.predict_half nat (list (list nat))) Inputs.cells_of 10
      Inputs.unc_ctrl 1%nat Inputs.val_half Inputs.g0 [] [] [] =
    Ok (map Uncertainty.s_reward batch,
        map (fun a => vec (Uncertainty.s_log_probs a)) batch,
        map Uncertainty.s_dists batch, g') /\
    Uncertainty.controller_phase nat unit
      (Inputs.predict_half nat (list (list nat))) Inputs.cells_of
      (fun c _ _ _ => c) 1%nat Inputs.unc_ctrl Inputs.val_half Inputs.g0 =
    Ok (Inputs.unc_ctrl,
        Rsum (map (fun a => Rsum (Uncertainty.s_actor a)) batch)
          / INR (Inputs.cells_of 1 * (Uncertainty.NUM_NODES * 3))
        + 0.5 * Rsum (map Uncertainty.s_critic batch),
        g').
Proof.
  assert (Hn : (1 <= Inputs.cells_of 1)%nat) by (unfold Inputs.cells_of; lia).
  assert (He : forall a, exists r,
             evaluate (Inputs.predict_half nat (list (list nat))) 1%nat a
                      Inputs.val_half = Ok r).
  { intros a. exists (1 / 2). apply evaluate_half. }
  split; [exact Hn|]. split; [exact He|].
  exact (uncertainty_update_loss nat unit
           (Inputs.predict_half nat (list (list nat))) Inputs.cells_of
           (fun c _ _ _ => c) 1%nat Inputs.unc_ctrl Inputs.val_half Inputs.g0
           Hn He).
Defined.

(** * Further properties *)

Lemma firstn_incl {A : Type} (n : nat) (l : list A) (a : A) :
  In a (firstn n l) -> In a l.
Proof.
  intros H. rewrite <- (firstn_skipn n l). apply in_or_app. now left.
Qed.

(** ** Recipe 1: [SharedCNN.forward] *)

Section SharedNetFacts.
Variables T F Out : Type.
Variable relu_op : T -> T.
Variable tanh_op : T -> T.
Variable spatial_mean : T -> F.

Local Abbreviation apply_layers := (SharedNet.apply_layers T relu_op tanh_op).
Local Abbreviation selected := (SharedNet.selected T relu_op tanh_op).
Local Abbreviation net_forward :=
  (SharedNet.forward T F Out relu_op tanh_op spatial_mean).

Lemma shared_ops_nth (a : nat) :
  (a < Basic.NUM_OPS)%nat ->
  nth_error (SharedNet.ops T relu_op tanh_op) a =
  Some (nth a (SharedNet.ops T relu_op tanh_op) (fun y => y)).
Proof.
  unfold Basic.NUM_OPS. intros Ha.
  destruct a as [|[|[|a]]]; [reflexivity | reflexivity | reflexivity | lia].
Qed.


Lemma shared_apply_firstn (ls : list (T -> T)) :
  forall actions x,
  apply_layers ls actions x =
  apply_layers ls (firstn (length ls) actions) x.
Proof.
  induction ls as [|layer ls IH]; intros [|a actions] x; try reflexivity.
  cbn [length firstn SharedNet.apply_layers].
  destruct (nth_error (SharedNet.ops T relu_op tanh_op) a);
    [apply IH | reflexivity].
Qed.

Lemma shared_apply_short (ls : list (T -> T)) :
  forall actions x,
  apply_layers ls actions x =
  apply_layers (firstn (length actions) ls) actions x.
Proof.
  induction ls as [|layer ls IH]; intros [|a actions] x; try reflexivity.
  cbn [length firstn SharedNet.apply_layers].
  destruct (nth_error (SharedNet.ops T relu_op tanh_op) a);
    [apply IH | reflexivity].
Qed.

Lemma shared_apply_ok (ls : list (T -> T)) :
  forall actions x,
  Forall (fun a => (a < Basic.NUM_OPS)%nat) (firstn (length ls) actions) ->
  apply_layers ls actions x =
  Ok (fold_left (fun y f => f y) (selected ls actions) x).
Proof.
  induction ls as [|layer ls IH]; intros [|a actions] x H; try reflexivity.
  cbn [length firstn] in H. inversion H as [|? ? Ha H']; subst.
  cbn [SharedNet.apply_layers SharedNet.selected fold_left].
  rewrite (shared_ops_nth a Ha). now apply IH.
Qed.

Lemma shared_selected_length (ls : list (T -> T)) :
  forall actions,
  length (selected ls actions) = Nat.min (length ls) (length actions).
Proof.
  induction ls as [|layer ls IH]; intros [|a actions]; try reflexivity.
  cbn [SharedNet.selected length Nat.min]. now rewrite IH.
Qed.


(** X1.  [SharedCNN.forward] looks at no more actions than it has layers.
    When each of those is below [NUM_OPS] it returns the classifier applied
    to the pooled output of the selected operations composed in order. *)
Theorem shared_forward_returns (net : SharedNet.SharedCNN T F Out) (x : T)
        (actions : list nat)
        (Hops : Forall (fun a => (a < Basic.NUM_OPS)%nat)
                  (firstn (length (SharedNet.layers T F Out net)) actions)) :
  net_forward net x actions =
  Ok (SharedNet.classifier T F Out net
        (spatial_mean
           (fold_left (fun y f => f y)
                      (selected (SharedNet.layers T F Out net) actions)
                      (SharedNet.input_conv T F Out net x)))).
Proof.
  unfold SharedNet.forward. now rewrite shared_apply_ok.
Qed.


(** X2.  A mismatch between the architecture and the number of layers is
    never reported: actions past the last layer are ignored, whatever
    they are, and with fewer actions than layers only the first
    [len(actions)] layers run. *)
Theorem shared_forward_truncates (net : SharedNet.SharedCNN T F Out) (x : T)
        (actions : list nat) :
  net_forward net x actions =
  net_forward net x (firstn (length (SharedNet.layers T F Out net)) actions) /\
  net_forward net x actions =
  net_forward
    {| SharedNet.input_conv := SharedNet.input_conv T F Out net;
       SharedNet.layers :=
         firstn (length actions) (SharedNet.layers T F Out net);
       SharedNet.classifier := SharedNet.classifier T F Out net |}
    x actions.
Proof.
  unfold SharedNet.forward. cbn [SharedNet.layers SharedNet.input_conv
                                 SharedNet.classifier].
  split.
  - now rewrite shared_apply_firstn.
  - now rewrite shared_apply_short.
Qed.

(** X3.  Every architecture that [Controller.forward(NUM_LAYERS)] samples
    runs through [SharedCNN.forward] without an error, whatever the
    network's parameters, and selects an operation for each of the first
    [NUM_LAYERS] layers. *)
Theorem shared_forward_accepts_samples (net : SharedNet.SharedCNN T F Out)
        (x : T) (ctrl : Basic.Controller) (g : rng) :
  exists actions lp g' out,
    Basic.forward ctrl Basic.NUM_LAYERS g = Ok (actions, lp, g') /\
    net_forward net x actions = Ok out /\
    length (selected (SharedNet.layers T F Out net) actions) =
    Nat.min (length (SharedNet.layers T F Out net)) Basic.NUM_LAYERS.
Proof.
  eexists _, _, _, _. split; [apply basic_forward_layers|]. split.
  - unfold SharedNet.forward. rewrite shared_apply_ok; [reflexivity|].
    apply Forall_forall. intros a Ha. apply firstn_incl in Ha.
    apply in_map_iff in Ha. destruct Ha as [i [<- _]].
    apply basic_action_lt.
  - rewrite shared_selected_length. now rewrite length_map, length_seq.
Qed.

End SharedNetFacts.

Lemma shared_forward_returns_witness :
  Forall (fun a => (a < Basic.NUM_OPS)%nat)
         (firstn (length (SharedNet.layers R R R MoreInputs.shared_net))
                 [0; 1; 2; 2]%nat) /\
  SharedNet.forward R R R (Rmax 0) tanh (fun x => x) MoreInputs.shared_net 0
                    [0; 1; 2; 2]%nat =
  Ok (SharedNet.classifier R R R MoreInputs.shared_net
        (fold_left (fun y f => f y)
           (SharedNet.selected R (Rmax 0) tanh
              (SharedNet.layers R R R MoreInputs.shared_net)
              [0; 1; 2; 2]%nat)
           (SharedNet.input_conv R R R MoreInputs.shared_net 0))).
Proof.
  assert (H : Forall (fun a => (a < Basic.NUM_OPS)%nat)
                (firstn (length (SharedNet.layers R R R MoreInputs.shared_net))
                        [0; 1; 2; 2]%nat)).
  { unfold Basic.NUM_OPS. repeat constructor. }
  split; [exact H|].
  exact (shared_forward_returns R R R (Rmax 0) tanh (fun x => x)
           MoreInputs.shared_net 0 [0; 1; 2; 2]%nat H).
Defined.


(** ** Recipe 8: [Cell.forward] and [Network.forward] *)

Section CellNetFacts.
Variables T Out Node : Type.
Variable node_apply : Node -> T -> CellNet.pyval -> CellNet.outcome T.
Variable add : T -> T -> T.

Lemma obind_Returned {A B : Type} (m : CellNet.outcome A)
      (k : A -> CellNet.outcome B) (b : B) :
  CellNet.obind m k = CellNet.Returned b ->
  exists a, m = CellNet.Returned a /\ k a = CellNet.Returned b.
Proof.
  destruct m as [a|e]; simpl; intros H; [|discriminate H].
  exists a. split; [reflexivity | exact H].
Qed.

Lemma unpack3_Returned (v a b c : CellNet.pyval) :
  CellNet.unpack3 v = CellNet.Returned (a, b, c) ->
  v = CellNet.PList [a; b; c].
Proof.
  destruct v as [n|[|x [|y [|z [|w l]]]]]; simpl; intros H;
    try discriminate H. now inversion H.
Qed.

Lemma state_at_index_Returned (states : list T) (op : CellNet.pyval) (s : T) :
  CellNet.state_at_index T states op = CellNet.Returned s ->
  exists n, op = CellNet.PInt n /\ (n < length states)%nat.
Proof.
  destruct op as [n|l]; simpl; [|discriminate].
  destruct (nth_error states n) eqn:E; [|discriminate].
  intros _. exists n. split; [reflexivity|].
  apply nth_error_Some. congruence.
Qed.

(** When the loop of [Cell.forward] returns, every node it ran read two
    states that existed before it ran, and added one state. *)
Lemma cell_nodes_inv (nodes : list Node) :
  forall actions states states',
  CellNet.cell_nodes T Node node_apply add nodes actions states =
    CellNet.Returned states' ->
  length states' =
    (length states + Nat.min (length nodes) (length actions))%nat /\
  forall i a, (i < length nodes)%nat -> nth_error actions i = Some a ->
    exists op1 op2 combine,
      a = CellNet.PList [CellNet.PInt op1; CellNet.PInt op2; combine] /\
      (op1 < length states + i)%nat /\ (op2 < length states + i)%nat.
Proof.
  induction nodes as [|node nodes IH]; intros [|a actions] states states' H;
    cbn [CellNet.cell_nodes] in H;
    try (inversion H; subst; cbn [length Nat.min]; split;
         [lia | intros i b Hi Hb; try (cbn [length] in Hi; lia);
                destruct i; discriminate Hb]).
  apply obind_Returned in H. destruct H as [[[op1 op2] combine] [Hu H]].
  apply unpack3_Returned in Hu. subst a.
  apply obind_Returned in H. destruct H as [x1 [H1 H]].
  apply obind_Returned in H. destruct H as [w1 [_ H]].
  apply obind_Returned in H. destruct H as [s1 [_ H]].
  apply obind_Returned in H. destruct H as [x2 [H2 H]].
  apply obind_Returned in H. destruct H as [w2 [_ H]].
  apply obind_Returned in H. destruct H as [s2 [_ H]].
  apply state_at_index_Returned in H1. destruct H1 as [n1 [-> Hn1]].
  apply state_at_index_Returned in H2. destruct H2 as [n2 [-> Hn2]].
  apply IH in H. destruct H as [Hl Hi]. rewrite length_app in Hl, Hi.
  cbn [length Nat.min] in *. split; [lia|].
  intros [|i] b Hlt Hb; cbn [nth_error] in Hb.
  - inversion Hb; subst. exists n1, n2, combine.
    split; [reflexivity|]. lia.
  - destruct (Hi i b ltac:(lia) Hb) as (o1 & o2 & cmb & -> & Ho1 & Ho2).
    exists o1, o2, cmb. split; [reflexivity|]. lia.
Qed.

(** X5.  [Cell.forward] returns only on a cell description in which every
    node that runs is a triple [(op1, op2, combine)] whose two indices are
    ints that point at the cell's input or at an earlier node: node [i]
    can read states [0..i] only. *)
Theorem cell_forward_reads_earlier_states (nodes : list Node) (x y : T)
        (actions : list CellNet.pyval)
        (Hret : CellNet.cell_forward T Node node_apply add nodes x
                  (CellNet.PList actions) = CellNet.Returned y) :
  forall i a, (i < length nodes)%nat -> nth_error actions i = Some a ->
    exists op1 op2 combine,
      a = CellNet.PList [CellNet.PInt op1; CellNet.PInt op2; combine] /\
      (op1 <= i)%nat /\ (op2 <= i)%nat.
Proof.
  unfold CellNet.cell_forward in Hret. cbn [CellNet.iterate CellNet.obind] in Hret.
  apply obind_Returned in Hret. destruct Hret as [states [H _]].
  apply cell_nodes_inv in H. destruct H as [_ H].
  intros i a Hi Ha. destruct (H i a Hi Ha) as (o1 & o2 & c & -> & H1 & H2).
  exists o1, o2, c. cbn [length] in *. split; [reflexivity|]. lia.
Qed.

(** X6.  [Network.forward] cannot run what the controller samples.  The
    controller returns every cell as a flat list of ints, and
    [Cell.forward] unpacks each element of that list as a triple: on a
    network with a cell that has a node, the architecture sampled for
    [n >= 1] cells raises [TypeError] before any node is applied. *)
Theorem network_forward_rejects_samples
        (net : CellNet.Network T Out Node) (x : T)
        (ctrl : Uncertainty.UncertaintyAwareController) (n : nat) (g : rng)
        (node : Node) (nodes : list Node) (cs : list (list Node))
        (Hn : (1 <= n)%nat)
        (Hcells : CellNet.cells T Out Node net = (node :: nodes) :: cs) :
  exists actions lp vds g',
    Uncertainty.forward ctrl n g = Ok (actions, lp, vds, g') /\
    CellNet.forward T Out Node node_apply add net x
                    (CellNet.of_actions actions) =
    CellNet.Threw CellNet.TypeError.
Proof.
  eexists _, _, _, _. split; [apply unc_forward_spec, Hn|].
  unfold CellNet.forward. rewrite Hcells.
  destruct n as [|n]; [lia|]. reflexivity.
Qed.

End CellNetFacts.

Lemma cell_forward_reads_earlier_states_witness :
  CellNet.cell_forward R unit (fun _ s _ => CellNet.Returned s) Rplus [tt] 1
    (CellNet.PList
       [CellNet.PList [CellNet.PInt 0; CellNet.PInt 0;
                       CellNet.PList [CellNet.PInt 0; CellNet.PInt 1]]]) =
  CellNet.Returned (1 + 1) /\
  exists op1 op2 combine,
    CellNet.PList [CellNet.PInt 0; CellNet.PInt 0;
                   CellNet.PList [CellNet.PInt 0; CellNet.PInt 1]] =
    CellNet.PList [CellNet.PInt op1; CellNet.PInt op2; combine] /\
    (op1 <= 0)%nat /\ (op2 <= 0)%nat.
Proof.
  split; [reflexivity|].
  exact (cell_forward_reads_earlier_states R unit
           (fun _ s _ => CellNet.Returned s) Rplus [tt] 1 (1 + 1)
           [CellNet.PList [CellNet.PInt 0; CellNet.PInt 0;
                           CellNet.PList [CellNet.PInt 0; CellNet.PInt 1]]]
           eq_refl 0%nat _ (Nat.lt_0_succ 0) eq_refl).
Defined.

Lemma network_forward_rejects_samples_witness :
  (1 <= 1)%nat /\
  CellNet.cells R R unit MoreInputs.cell_net =
    (tt :: repeat tt 3) :: [] /\
  exists actions lp vds g',
    Uncertainty.forward Inputs.unc_ctrl 1 Inputs.g0 =
      Ok (actions, lp, vds, g') /\
    CellNet.forward R R unit (fun _ s _ => CellNet.Returned s) Rplus
                    MoreInputs.cell_net 0 (CellNet.of_actions actions) =
    CellNet.Threw CellNet.TypeError.
Proof.
  split; [lia|]. split; [reflexivity|].
  exact (network_forward_rejects_samples R R unit
           (fun _ s _ => CellNet.Returned s) Rplus MoreInputs.cell_net 0
           Inputs.unc_ctrl 1 Inputs.g0 tt (repeat tt 3) []
           (le_n 1) eq_refl).
Defined.

(** ** Recipe 3: the shapes [ppo_update] accepts *)

Lemma bdim_Some_l (a b c : nat) :
  bdim a b = Some c -> a <> 1%nat -> c = a /\ (b = a \/ b = 1%nat).
Proof.
  unfold bdim. intros H Ha.
  destruct (Nat.eqb a b) eqn:E1.
  - apply Nat.eqb_eq in E1. inversion H. subst. auto.
  - destruct (Nat.eqb a 1) eqn:E2; [apply Nat.eqb_eq in E2; contradiction|].
    destruct (Nat.eqb b 1) eqn:E3; [|discriminate H].
    apply Nat.eqb_eq in E3. inversion H. subst. auto.
Qed.

Lemma tbinop_Ok_shape (f : R -> R -> R) (a b t : tensor) :
  tbinop f a b = Ok t ->
  bdim (nrows a) (nrows b) = Some (nrows t) /\
  bdim (ncols a) (ncols b) = Some (ncols t).
Proof.
  unfold tbinop.
  destruct (bdim (nrows a) (nrows b)) as [r|]; [|discriminate].
  destruct (bdim (ncols a) (ncols b)) as [c|]; [|discriminate].
  intros H. inversion H. subst. split; reflexivity.
Qed.

(** [ppo_update] returns a loss only on inputs of compatible shapes:
    with [N = len(actions) * NUM_NODES * 3] new log-probabilities,
    [actions] is not empty, [old_log_probs] has [N] columns or one, and
    [rewards - old_values] broadcasts to [N] columns or one. *)
Lemma ppo_update_shapes
        (ctrl : PPO.PPOController) (old_log_probs old_values rewards : tensor)
        (actions : list (list (list nat))) (epsilon : R) (g : rng)
        (out : R * rng)
        (Hret : PPO.ppo_update ctrl old_log_probs old_values rewards actions
                               epsilon g = Ok out) :
  let N := (length actions * (PPO.NUM_NODES * 3))%nat in
  (1 <= length actions)%nat /\
  (ncols old_log_probs = N \/ ncols old_log_probs = 1%nat) /\
  exists c, bdim (ncols rewards) (ncols old_values) = Some c /\
            (c = N \/ c = 1%nat).
Proof.
  intros N. unfold PPO.ppo_update in Hret.
  destruct (length actions) as [|m] eqn:Em.
  { rewrite ppo_forward_0 in Hret. discriminate Hret. }
  rewrite ppo_forward_spec in Hret by lia. cbn [bind] in Hret.
  apply bind_Ok in Hret. destruct Hret as [d [Hd Hret]].
  apply bind_Ok in Hret. destruct Hret as [adv [Ha Hret]].
  apply bind_Ok in Hret. destruct Hret as [surr1 [Hs _]].
  apply tbinop_Ok_shape in Hd, Ha, Hs.
  destruct Hd as [_ Hd]. destruct Ha as [_ Ha]. destruct Hs as [_ Hs].
  cbn [ncols vec tmap] in Hd, Hs. rewrite length_map, length_seq in Hd.
  fold N in Hd.
  assert (HN : N <> 1%nat) by (unfold N, PPO.NUM_NODES; lia).
  apply bdim_Some_l in Hd; [|exact HN]. destruct Hd as [Hd1 Hd2].
  rewrite Hd1 in Hs. apply bdim_Some_l in Hs; [|exact HN].
  destruct Hs as [_ Hs2].
  split; [lia|]. split; [exact Hd2|].
  exists (ncols adv). split; [exact Ha | exact Hs2].
Qed.

(** X7.  [ppo_update] returns a loss only on inputs of compatible shapes:
    with [N = len(actions) * NUM_NODES * 3] new log-probabilities,
    [actions] is not empty, [old_log_probs] has [N] columns or one, and
    [rewards - old_values] broadcasts to [N] columns or one. *)
Theorem ppo_update_shape_precondition
        (ctrl : PPO.PPOController) (old_log_probs old_values rewards : tensor)
        (actions : list (list (list nat))) (epsilon : R) (g : rng)
        (out : R * rng)
        (Hret : PPO.ppo_update ctrl old_log_probs old_values rewards actions
                               epsilon g = Ok out) :
  let N := (length actions * (PPO.NUM_NODES * 3))%nat in
  (1 <= length actions)%nat /\
  (ncols old_log_probs = N \/ ncols old_log_probs = 1%nat) /\
  exists c, bdim (ncols rewards) (ncols old_values) = Some c /\
            (c = N \/ c = 1%nat).
Proof.
  exact (ppo_update_shapes ctrl old_log_probs old_values rewards actions
           epsilon g out Hret).
Qed.



Section PPONeverReturns.
Variables Net X : Type.
Variable predict : Net -> X -> list (list nat) -> list nat.
Variable cells : Net -> nat.
Variable network_step : Net -> X -> list nat -> list (list nat) -> Net.
Variable ppo_step :
  PPO.PPOController -> tensor -> tensor -> tensor -> rng -> PPO.PPOController.



End PPONeverReturns.

Lemma tbinop_runs (f : R -> R -> R) (a b : tensor) (r c : nat) :
  bdim (nrows a) (nrows b) = Some r ->
  bdim (ncols a) (ncols b) = Some c ->
  exists t, tbinop f a b = Ok t /\ nrows t = r /\ ncols t = c.
Proof.
  intros Hr Hc. unfold tbinop. rewrite Hr, Hc.
  eexists. split; [reflexivity|]. split; reflexivity.
Qed.

Lemma ppo_update_runs_on_one_cell :
  exists out,
    PPO.ppo_update Inputs.ppo_ctrl (vec (repeat 0 12)) (col (repeat 0 12))
                   (scalar (1 / 2)) [[]] 0.2 Inputs.g0 = Ok out.
Proof.
  unfold PPO.ppo_update. rewrite ppo_forward_spec by (cbn [length]; lia).
  cbn [bind].
  destruct (tbinop_runs Rminus
              (vec (map (PPO.log_prob_at Inputs.ppo_ctrl Inputs.g0)
                        (seq 0 (length [@nil (list nat)] * (PPO.NUM_NODES * 3)))))
              (vec (repeat 0 12)) 1 12 eq_refl eq_refl) as (d & Hd & Hdr & Hdc).
  unfold tsub at 1. rewrite Hd. cbn [bind].
  destruct (tbinop_runs Rminus (scalar (1 / 2)) (col (repeat 0 12)) 12 1
              eq_refl eq_refl) as (adv & Ha & Har & Hac).
  unfold tsub at 1. rewrite Ha. cbn [bind].
  destruct (tbinop_runs Rmult (tmap exp d) adv 12 12) as (s1 & Hs1 & Hs1r & Hs1c).
  { cbn [nrows tmap]. now rewrite Hdr, Har. }
  { cbn [ncols tmap]. now rewrite Hdc, Hac. }
  unfold tmul at 1. rewrite Hs1. cbn [bind].
  destruct (tbinop_runs Rmult
              (tmap (PPO.clamp (1 - 0.2) (1 + 0.2)) (tmap exp d)) adv 12 12)
    as (s2 & Hs2 & Hs2r & Hs2c).
  { cbn [nrows tmap]. now rewrite Hdr, Har. }
  { cbn [ncols tmap]. now rewrite Hdc, Hac. }
  unfold tmul at 1. rewrite Hs2. cbn [bind].
  destruct (tbinop_runs Rmin s1 s2 12 12) as (m & Hm & _ & _).
  { now rewrite Hs1r, Hs2r. }
  { now rewrite Hs1c, Hs2c. }
  unfold tmin. rewrite Hm. cbn [bind].
  unfold PPO.mse_loss.
  destruct (tbinop_runs Rminus
              (col (map (PPO.value_at Inputs.ppo_ctrl)
                        (seq 0 (length [@nil (list nat)] * (PPO.NUM_NODES * 3)))))
              (scalar (1 / 2)) 12 1 eq_refl eq_refl) as (q & Hq & _ & _).
  unfold tsub. rewrite Hq. cbn [bind].
  eexists. reflexivity.
Qed.

Lemma ppo_update_shape_precondition_witness :
  exists out,
    PPO.ppo_update Inputs.ppo_ctrl (vec (repeat 0 12)) (col (repeat 0 12))
                   (scalar (1 / 2)) [[]] 0.2 Inputs.g0 = Ok out /\
    (1 <= length [@nil (list nat)])%nat /\
    (ncols (vec (repeat 0 12)) =
       (length [@nil (list nat)] * (PPO.NUM_NODES * 3))%nat \/
     ncols (vec (repeat 0 12)) = 1%nat) /\
    exists c,
      bdim (ncols (scalar (1 / 2))) (ncols (col (repeat 0 12))) = Some c /\
      (c = (length [@nil (list nat)] * (PPO.NUM_NODES * 3))%nat \/ c = 1%nat).
Proof.
  destruct ppo_update_runs_on_one_cell as [out H].
  exists out. split; [exact H|].
  exact (ppo_update_shape_precondition Inputs.ppo_ctrl (vec (repeat 0 12))
           (col (repeat 0 12)) (scalar (1 / 2)) [[]] 0.2 Inputs.g0 out H).
Defined.

(** ** [evaluate]: what the accuracy is *)

Lemma count_eq_raise (p y : list nat) (e : exn) :
  count_eq p y = Raise e -> e = RuntimeError.
Proof.
  unfold count_eq. destruct (bdim (length p) (length y)); [discriminate|].
  congruence.
Qed.

Lemma count_matches_le (p : list nat) :
  forall y,
  (length (filter (fun b : bool => b) (zip_with Nat.eqb p y)) <= length y)%nat.
Proof.
  induction p as [|a p IH]; intros [|b y]; cbn [zip_with filter length];
    try lia.
  specialize (IH y). destruct (Nat.eqb a b); cbn [length]; lia.
Qed.

Lemma count_eq_matched (p y : list nat) :
  length p = length y ->
  exists k, count_eq p y = Ok k /\ (k <= length y)%nat.
Proof.
  intros H. unfold count_eq. rewrite H, bdim_refl.
  unfold expand_labels. rewrite H, Nat.eqb_refl.
  eexists. split; [reflexivity | apply count_matches_le].
Qed.

Section EvaluateFacts.
Variables Net X A : Type.
Variable predict : Net -> X -> A -> list nat.
Variable model : Net.
Variable actions : A.

Local Abbreviation loop := (evaluate_loop predict model actions).

(** The loop adds to its two counters; it does not read them. *)
Lemma evaluate_loop_shift (data : list (X * list nat)) :
  forall c t,
  loop data c t =
  match loop data 0%nat 0%nat with
  | Ok (c', t') => Ok ((c + c')%nat, (t + t')%nat)
  | Raise e => Raise e
  end.
Proof.
  induction data as [|[x y] data IH]; intros c t.
  - cbn [evaluate_loop]. now rewrite !Nat.add_0_r.
  - cbn [evaluate_loop].
    destruct (count_eq (predict model x actions) y) as [k|e]; cbn [bind];
      [|reflexivity].
    rewrite (IH (c + k)%nat (t + length y)%nat).
    rewrite (IH (0 + k)%nat (0 + length y)%nat).
    destruct (loop data 0%nat 0%nat) as [[c' t']|e]; [|reflexivity].
    f_equal. f_equal; lia.
Qed.

Lemma num_examples_cons (x : X) (y : list nat) (data : list (X * list nat)) :
  num_examples ((x, y) :: data) = (length y + num_examples data)%nat.
Proof. reflexivity. Qed.

Lemma evaluate_loop_total (data : list (X * list nat)) :
  forall c t c' t',
  loop data c t = Ok (c', t') -> t' = (t + num_examples data)%nat.
Proof.
  induction data as [|[x y] data IH]; intros c t c' t' H.
  - cbn [evaluate_loop] in H. inversion H. unfold num_examples. simpl. lia.
  - cbn [evaluate_loop] in H. apply bind_Ok in H. destruct H as [k [_ H]].
    apply IH in H. rewrite num_examples_cons. lia.
Qed.

Lemma evaluate_loop_raise (data : list (X * list nat)) :
  forall c t e, loop data c t = Raise e -> e = RuntimeError.
Proof.
  induction data as [|[x y] data IH]; intros c t e H.
  - discriminate H.
  - cbn [evaluate_loop] in H.
    destruct (count_eq (predict model x actions) y) as [k|e'] eqn:E;
      cbn [bind] in H.
    + now apply IH in H.
    + inversion H; subst. now apply count_eq_raise in E.
Qed.

Lemma evaluate_loop_app (d1 d2 : list (X * list nat)) :
  forall c t,
  loop (d1 ++ d2) c t =
  bind (loop d1 c t) (fun ct => loop d2 (fst ct) (snd ct)).
Proof.
  induction d1 as [|[x y] d1 IH]; intros c t; [reflexivity|].
  cbn [app evaluate_loop].
  destruct (count_eq (predict model x actions) y) as [k|e]; cbn [bind];
    [apply IH | reflexivity].
Qed.

Lemma evaluate_loop_matched (data : list (X * list nat)) :
  Forall (fun xy => length (predict model (fst xy) actions) = length (snd xy))
         data ->
  forall c t, exists k,
    loop data c t = Ok ((c + k)%nat, (t + num_examples data)%nat) /\
    (k <= num_examples data)%nat.
Proof.
  induction 1 as [|[x y] data Hxy _ IH]; intros c t.
  - exists 0%nat. change (num_examples (@nil (X * list nat))) with 0%nat.
    cbn [evaluate_loop]. rewrite !Nat.add_0_r. split; [reflexivity | lia].
  - cbn [fst snd] in Hxy. cbn [evaluate_loop].
    destruct (count_eq_matched _ _ Hxy) as [k [Hk Hle]]. rewrite Hk.
    cbn [bind]. destruct (IH (c + k)%nat (t + length y)%nat) as [k' [H' Hle']].
    exists (k + k')%nat. rewrite H', num_examples_cons.
    split; [f_equal; f_equal; lia | lia].
Qed.

(** X9.  When in every batch the network gives one prediction per label,
    [evaluate] never fails on shapes: it returns an accuracy between 0
    and 1, or, when no batch holds a label, raises
    [ZeroDivisionError]. *)
Theorem evaluate_accuracy_range (data : list (X * list nat))
        (Hshape : Forall (fun xy => length (predict model (fst xy) actions) =
                                    length (snd xy)) data) :
  (exists r, evaluate predict model actions data = Ok r /\ 0 <= r <= 1 /\
             (1 <= num_examples data)%nat) \/
  (evaluate predict model actions data = Raise ZeroDivisionError /\
   num_examples data = 0%nat).
Proof.
  unfold evaluate.
  destruct (evaluate_loop_matched data Hshape 0%nat 0%nat) as [k [H Hle]].
  rewrite H. cbn [bind Nat.add].
  destruct (num_examples data) as [|n] eqn:En.
  - right. split; reflexivity.
  - left. eexists. split; [reflexivity|]. split; [|lia].
    assert (Hn : 0 < INR (S n)) by (apply lt_0_INR; lia).
    assert (Hk : 0 <= INR k) by apply pos_INR.
    assert (Hkn : INR k <= INR (S n)) by (apply le_INR; lia).
    split.
    + apply Rmult_le_pos; [exact Hk|]. left. now apply Rinv_0_lt_compat.
    + apply (Rmult_le_reg_r (INR (S n))); [exact Hn|].
      unfold Rdiv. rewrite Rmult_assoc, Rinv_l by lra. lra.
Qed.

(** X10.  The accuracy does not depend on the order of the batches:
    [evaluate] gives the same result, or the same exception, on every
    permutation of the dataset. *)
Theorem evaluate_permutation (data data' : list (X * list nat))
        (Hperm : Permutation data data') :
  evaluate predict model actions data = evaluate predict model actions data'.
Proof.
  assert (P : forall c t, loop data c t = loop data' c t).
  { induction Hperm as [|[x y] d d' _ IH|[x y] [x' y'] d|d d' d'' _ IH1 _ IH2];
      intros c t.
    - reflexivity.
    - cbn [evaluate_loop].
      destruct (count_eq (predict model x actions) y); cbn [bind];
        [apply IH | reflexivity].
    - cbn [evaluate_loop].
      destruct (count_eq (predict model x actions) y) as [k|e] eqn:E;
        destruct (count_eq (predict model x' actions) y') as [k'|e'] eqn:E';
        cbn [bind]; rewrite ?E, ?E'; cbn [bind].
      + f_equal; lia.
      + reflexivity.
      + reflexivity.
      + apply count_eq_raise in E, E'. congruence.
    - now rewrite IH1. }
  unfold evaluate. now rewrite P.
Qed.

(** X11.  Accuracy is pooled over examples, not averaged over batches or
    datasets: when [evaluate] returns [r1] on [d1] and [r2] on [d2], on
    [d1 ++ d2] it returns their mean weighted by the numbers of
    examples. *)
Theorem evaluate_app (d1 d2 : list (X * list nat)) (r1 r2 : R)
        (H1 : evaluate predict model actions d1 = Ok r1)
        (H2 : evaluate predict model actions d2 = Ok r2) :
  evaluate predict model actions (d1 ++ d2) =
  Ok ((INR (num_examples d1) * r1 + INR (num_examples d2) * r2)
      / INR (num_examples d1 + num_examples d2)).
Proof.
  unfold evaluate in *. rewrite evaluate_loop_app.
  destruct (loop d1 0%nat 0%nat) as [[c1 t1]|e1] eqn:E1; [|discriminate H1].
  destruct (loop d2 0%nat 0%nat) as [[c2 t2]|e2] eqn:E2; [|discriminate H2].
  cbn [bind fst snd] in *. rewrite evaluate_loop_shift, E2.
  apply evaluate_loop_total in E1, E2. cbn [Nat.add] in E1, E2. subst t1 t2.
  destruct (num_examples d1) as [|n1]; [discriminate H1|].
  destruct (num_examples d2) as [|n2]; [discriminate H2|].
  assert (R1 : r1 = INR c1 / INR (S n1)) by congruence.
  assert (R2 : r2 = INR c2 / INR (S n2)) by congruence.
  subst r1 r2. cbn [bind Nat.add].
  f_equal. rewrite <- Nat.add_succ_l.
  assert (N1 : 0 < INR (S n1)) by (apply lt_0_INR; lia).
  assert (N2 : 0 < INR (S n2)) by (apply lt_0_INR; lia).
  rewrite !plus_INR.
  clear H1 H2.
  generalize dependent (INR (S n1)). generalize dependent (INR (S n2)).
  intros b2 N2 b1 N1. field. repeat split; lra.
Qed.

End EvaluateFacts.

Lemma evaluate_accuracy_range_witness :
  Forall (fun xy => length (Inputs.predict_half unit (list nat) tt (fst xy) [])
                    = length (snd xy)) Inputs.val_half /\
  ((exists r, evaluate (Inputs.predict_half unit (list nat)) tt []
                       Inputs.val_half = Ok r /\ 0 <= r <= 1 /\
              (1 <= num_examples Inputs.val_half)%nat) \/
   (evaluate (Inputs.predict_half unit (list nat)) tt [] Inputs.val_half =
      Raise ZeroDivisionError /\
    num_examples Inputs.val_half = 0%nat)).
Proof.
  assert (H : Forall (fun xy => length (Inputs.predict_half unit (list nat) tt
                                          (fst xy) []) = length (snd xy))
                Inputs.val_half).
  { repeat constructor. }
  split; [exact H|].
  exact (evaluate_accuracy_range unit unit (list nat)
           (Inputs.predict_half unit (list nat)) tt [] Inputs.val_half H).
Defined.

Lemma evaluate_permutation_witness :
  Permutation [(tt, [0%nat; 1%nat]); (tt, [0%nat])]
              [(tt, [0%nat]); (tt, [0%nat; 1%nat])] /\
  evaluate (fun (_ _ : unit) (_ : list nat) => [0%nat]) tt []
           [(tt, [0%nat; 1%nat]); (tt, [0%nat])] =
  evaluate (fun (_ _ : unit) (_ : list nat) => [0%nat]) tt []
           [(tt, [0%nat]); (tt, [0%nat; 1%nat])].
Proof.
  assert (H : Permutation [(tt, [0%nat; 1%nat]); (tt, [0%nat])]
                          [(tt, [0%nat]); (tt, [0%nat; 1%nat])])
    by apply perm_swap.
  split; [exact H|].
  exact (evaluate_permutation unit unit (list nat)
           (fun (_ _ : unit) (_ : list nat) => [0%nat]) tt [] _ _ H).
Defined.

Lemma evaluate_app_witness :
  evaluate (Inputs.predict_half unit (list nat)) tt [] Inputs.val_half =
    Ok (1 / 2) /\
  evaluate (Inputs.predict_half unit (list nat)) tt []
           (Inputs.val_half ++ Inputs.val_half) =
  Ok ((INR (num_examples Inputs.val_half) * (1 / 2) +
       INR (num_examples Inputs.val_half) * (1 / 2))
      / INR (num_examples Inputs.val_half + num_examples Inputs.val_half)).
Proof.
  split; [apply evaluate_half|].
  exact (evaluate_app unit unit (list nat)
           (Inputs.predict_half unit (list nat)) tt [] Inputs.val_half
           Inputs.val_half (1 / 2) (1 / 2)
           (evaluate_half unit (list nat) tt [])
           (evaluate_half unit (list nat) tt [])).
Defined.

(** ** The samplers: probabilities, draws and value estimates *)

Lemma Rsum_exp_ge (x : R) (l : list R) :
  In x l -> exp x <= Rsum (map exp l).
Proof.
  induction l as [|y l IH]; intros H; [contradiction|].
  cbn [map]. rewrite Rsum_cons.
  assert (G : forall m, 0 <= Rsum (map exp m)).
  { induction m as [|z m IHm]; [cbn; lra|].
    cbn [map]. rewrite Rsum_cons. pose proof (exp_pos z). lra. }
  destruct H as [->|H].
  - pose proof (G l). lra.
  - specialize (IH H). pose proof (exp_pos y). lra.
Qed.

Lemma softmax_le_1 (l : list R) (p : R) : In p (softmax l) -> p <= 1.
Proof.
  unfold softmax. intros H. apply in_map_iff in H.
  destruct H as [x [<- Hx]].
  assert (Z : 0 < Rsum (map exp l)).
  { apply Rsum_exp_pos. intros E. subst. contradiction. }
  apply (Rmult_le_reg_r (Rsum (map exp l))); [exact Z|].
  unfold Rdiv. rewrite Rmult_assoc, Rinv_l by lra.
  pose proof (Rsum_exp_ge x l Hx). lra.
Qed.

Lemma ln_softmax_entry (n : nat) (head : list R -> nat -> R) (h : list R)
      (u : R) :
  (0 < n)%nat ->
  ln (nth (multinomial (softmax (head_out n head h)) u)
          (softmax (head_out n head h)) 0) <= 0.
Proof.
  intros Hn.
  assert (Hin : In (nth (multinomial (softmax (head_out n head h)) u)
                        (softmax (head_out n head h)) 0)
                   (softmax (head_out n head h))).
  { apply nth_In. rewrite softmax_length, head_out_length.
    now apply multinomial_softmax_lt. }
  pose proof (softmax_le_1 _ _ Hin) as Hle.
  pose proof (softmax_pos (head_out n head h)) as Hpos.
  rewrite Forall_forall in Hpos. specialize (Hpos _ Hin).
  apply Rle_trans with (ln 1); [|rewrite ln_1; lra].
  destruct Hle as [Hlt|Heq].
  - left. now apply ln_increasing.
  - right. now rewrite Heq.
Qed.

(** X12.  Every log-probability a sampler returns is at most zero: the
    probability of the drawn action lies in (0, 1]. *)
Theorem forward_log_probs_nonpositive (n : nat) (Hn : (1 <= n)%nat) :
  (forall (ctrl : Basic.Controller) (g : rng),
     exists actions lps g',
       Basic.forward ctrl n g = Ok (actions, vec lps, g') /\
       Forall (fun lp => lp <= 0) lps) /\
  (forall (ctrl : PPO.PPOController) (g : rng),
     exists actions lps values g',
       PPO.forward ctrl n g = Ok (actions, vec lps, values, g') /\
       Forall (fun lp => lp <= 0) lps) /\
  (forall (ctrl : Uncertainty.UncertaintyAwareController) (g : rng),
     exists actions lps vds g',
       Uncertainty.forward ctrl n g = Ok (actions, vec lps, vds, g') /\
       Forall (fun lp => lp <= 0) lps).
Proof.
  split; [|split]; intros ctrl g.
  - eexists _, _, _. split; [apply basic_forward_spec, Hn|].
    apply Forall_map_seq. intros i. apply ln_softmax_entry.
    unfold Basic.NUM_OPS. lia.
  - eexists _, _, _, _. split; [apply ppo_forward_spec, Hn|].
    apply Forall_map_seq. intros i. apply ln_softmax_entry.
    unfold PPO.NUM_OPS. lia.
  - eexists _, _, _, _. split; [apply unc_forward_spec, Hn|].
    apply Forall_map_seq. intros i. apply ln_softmax_entry.
    unfold Uncertainty.NUM_OPS. lia.
Qed.

Lemma forward_log_probs_nonpositive_witness :
  (1 <= 1)%nat /\
  (forall (ctrl : Basic.Controller) (g : rng),
     exists actions lps g',
       Basic.forward ctrl 1 g = Ok (actions, vec lps, g') /\
       Forall (fun lp => lp <= 0) lps).
Proof.
  split; [lia|]. apply (forward_log_probs_nonpositive 1). lia.
Defined.



(** X14.  The value estimates do not depend on what is sampled: for the
    same parameters, two calls of [forward] return the same values (PPO)
    and the same value distributions (uncertainty-aware), whatever the
    random draws and the actions. *)
Theorem forward_values_ignore_draws (n : nat) (g1 g2 : rng)
        (Hn : (1 <= n)%nat) :
  (forall ctrl : PPO.PPOController,
     exists a1 l1 v1 h1 a2 l2 v2 h2,
       PPO.forward ctrl n g1 = Ok (a1, l1, v1, h1) /\
       PPO.forward ctrl n g2 = Ok (a2, l2, v2, h2) /\
       v1 = v2 /\ shape v1 = [(n * (PPO.NUM_NODES * 3))%nat; 1%nat]) /\
  (forall ctrl : Uncertainty.UncertaintyAwareController,
     exists a1 l1 d1 h1 a2 l2 d2 h2,
       Uncertainty.forward ctrl n g1 = Ok (a1, l1, d1, h1) /\
       Uncertainty.forward ctrl n g2 = Ok (a2, l2, d2, h2) /\
       d1 = d2 /\ length d1 = (n * (Uncertainty.NUM_NODES * 3))%nat).
Proof.
  split; intros ctrl.
  - eexists _, _, _, _, _, _, _, _.
    split; [apply ppo_forward_spec, Hn|].
    split; [apply ppo_forward_spec, Hn|].
    split; [reflexivity|].
    unfold shape, col. cbn [rank nrows ncols].
    now rewrite length_map, length_seq.
  - eexists _, _, _, _, _, _, _, _.
    split; [apply unc_forward_spec, Hn|].
    split; [apply unc_forward_spec, Hn|].
    split; [reflexivity|]. now rewrite length_map, length_seq.
Qed.

Lemma forward_values_ignore_draws_witness :
  (1 <= 1)%nat /\
  (forall ctrl : PPO.PPOController,
     exists a1 l1 v1 h1 a2 l2 v2 h2,
       PPO.forward ctrl 1 Inputs.g0 = Ok (a1, l1, v1, h1) /\
       PPO.forward ctrl 1 Inputs.g1 = Ok (a2, l2, v2, h2) /\
       v1 = v2 /\ shape v1 = [(1 * (PPO.NUM_NODES * 3))%nat; 1%nat]).
Proof.
  split; [lia|].
  exact (proj1 (forward_values_ignore_draws 1 Inputs.g0 Inputs.g1 (le_n 1))).
Defined.


(** ** Recipe 8: what the update reads, and when training completes *)

Lemma unc_loss_loop_heads :
  forall (rewards : list R) (lps : list tensor)
         (vds : list (list Uncertainty.Normal)) (a c : Uncertainty.pynum),
  Uncertainty.loss_loop (Uncertainty.zip3 rewards lps vds) a c =
  Uncertainty.loss_loop
    (Uncertainty.zip3 rewards lps (map (firstn 1) vds)) a c.
Proof.
  induction rewards as [|r rewards IH]; intros [|lp lps] [|vd vds] a c;
    try reflexivity.
  cbn [map Uncertainty.zip3 Uncertainty.loss_loop].
  destruct vd as [|vd0 rest]; [reflexivity|]. cbn [firstn].
  destruct (tsub (scalar r) (Uncertainty.loc vd0)) as [adv|]; [|reflexivity].
  cbn [bind]. destruct (tmul lp adv) as [p|]; [|reflexivity].
  cbn [bind]. destruct (Uncertainty.pysub a p) as [a'|]; [|reflexivity].
  cbn [bind].
  destruct (Uncertainty.log_prob vd0 (scalar r)) as [nll|]; [|reflexivity].
  cbn [bind]. destruct (Uncertainty.pysub c nll) as [c'|]; [|reflexivity].
  cbn [bind]. apply IH.
Qed.

(** X16.  The update reads one value distribution per architecture, that
    of its first decision: the loss (or the exception) is the same when
    every other distribution the sampler returned is dropped. *)
Theorem uncertainty_loss_reads_first_dist
        (rewards : list R) (log_probs_list : list tensor)
        (value_dists_list : list (list Uncertainty.Normal)) :
  Uncertainty.controller_loss rewards log_probs_list value_dists_list =
  Uncertainty.controller_loss rewards log_probs_list
                              (map (firstn 1) value_dists_list).
Proof.
  unfold Uncertainty.controller_loss. now rewrite unc_loss_loop_heads.
Qed.



Section UncertaintyTraining.
Variables Net X : Type.
Variable predict : Net -> X -> list (list nat) -> list nat.
Variable cells : Net -> nat.
Variable network_step : Net -> X -> list nat -> list (list nat) -> Net.
Variable controller_step :
  Uncertainty.UncertaintyAwareController -> list R -> list tensor ->
  list (list Uncertainty.Normal) -> Uncertainty.UncertaintyAwareController.

Hypothesis Hcells : forall net, (1 <= cells net)%nat.



End UncertaintyTraining.



(** ** Recipe 1: shapes the controller loss accepts *)

Lemma bdim_compatible (a b : nat) :
  a = b \/ a = 1%nat \/ b = 1%nat -> exists c, bdim a b = Some c.
Proof.
  intros [H|[H|H]]; subst.
  - exists b. apply bdim_refl.
  - exists b. apply bdim_1_l.
  - exists a. apply bdim_1_r.
Qed.

Lemma expand_vec_to (l : list R) (c : nat) :
  length l = c -> expand (vec l) 1 c = [l].
Proof. intros <-. apply expand_vec. Qed.

Lemma tmul_vec_vec (l m : list R) :
  length l = length m ->
  tmul (vec l) (vec m) = Ok (vec (zip_with Rmult l m)).
Proof.
  intros H. unfold tmul, tbinop. cbn [nrows ncols rank vec].
  change (bdim 1 1) with (Some 1%nat). rewrite <- H, bdim_refl.
  cbv iota beta. change (mkT 1 1 (length l) [l]) with (vec l).
  replace (mkT 1 1 (length l) [m]) with (vec m)
    by (unfold vec; now rewrite H).
  rewrite expand_vec, (expand_vec_to m (length l)) by congruence.
  cbn [zip_with Nat.max]. unfold vec.
  now rewrite zip_with_length.
Qed.

(** X19.  Line 141 of [train_enas], [-(log_probs * reward).sum()], is
    defined exactly when the two tensors have the same length or one of
    them has length one; for equal lengths it is minus the sum of the
    entrywise products. *)
Theorem basic_controller_loss_shapes (l m : list R) :
  (length l = length m ->
   Basic.controller_loss (vec l) (vec m) =
   Ok (- Rsum (zip_with Rmult l m))) /\
  ((exists v, Basic.controller_loss (vec l) (vec m) = Ok v) <->
   (length l = length m \/ length l = 1%nat \/ length m = 1%nat)).
Proof.
  split.
  - intros H. unfold Basic.controller_loss. rewrite tmul_vec_vec by exact H.
    cbn [bind]. unfold tsum, flat. cbn [rows vec concat].
    now rewrite app_nil_r.
  - unfold Basic.controller_loss. split.
    + intros [v Hv].
      destruct (Nat.eq_dec (length l) (length m)) as [E|E]; [now left|].
      destruct (Nat.eq_dec (length l) 1) as [E1|E1]; [now right; left|].
      destruct (Nat.eq_dec (length m) 1) as [E2|E2]; [now right; right|].
      unfold tmul in Hv.
      rewrite (tbinop_vec_mismatch Rmult l m E E1 E2) in Hv. discriminate Hv.
    + intros H.
      destruct (bdim_compatible (length l) (length m) H) as [c Hc].
      destruct (tbinop_runs Rmult (vec l) (vec m) 1 c eq_refl Hc)
        as (t & Ht & _ & _).
      exists (- tsum t). unfold tmul. now rewrite Ht.
Qed.

Lemma basic_controller_loss_shapes_witness :
  length [1; 2] = length [3; 4] /\
  Basic.controller_loss (vec [1; 2]) (vec [3; 4]) =
  Ok (- Rsum (zip_with Rmult [1; 2] [3; 4])).
Proof.
  split; [reflexivity|].
  exact (proj1 (basic_controller_loss_shapes [1; 2] [3; 4]) eq_refl).
Defined.

(** ** Recipe 1: every architecture can be sampled *)





